(** * cloudbuildnotifier: the message pipeline of [main.go]

    A shallow embedding of [pullMsgs], [GetGithubInfo] and
    [PushMessageToChatHangout].  Go strings are [string]s, a Go [error] is
    an [option error] ([None] is [nil]), the variables captured by the
    receive callback are a record threaded through a small monad, and
    every externally visible action (acknowledgement, log line, HTTP
    exchange, sleep, lock) is recorded in an effect trace. *)

From Stdlib Require Import String Ascii List Bool ZArith Lia.
Import ListNotations.
Set Warnings "-register-all".
Local Open Scope list_scope.
Local Open Scope string_scope.

(** ** Go values *)

(** The text of a Go [error]; an [error] interface value is an
    [option error]. *)
Definition error : Type := string.

(** [err != nil] *)
Definition is_err (e : option error) : bool :=
  match e with Some _ => true | None => false end.

(** A Go slice: [None] is the nil slice, which [range] treats as empty
    but which [json.Marshal] prints as [null]. *)
Definition slice (A : Type) : Type := option (list A).

Definition elems {A : Type} (s : slice A) : list A :=
  match s with Some l => l | None => [] end.

(** The newline written [\n] in the Go string literals. *)
Definition LF : string := String (ascii_of_nat 10) EmptyString.

(** ** fmt.Sprintf

    Only the verb the program uses, [%s] applied to strings (and the
    escape [%%]); a missing operand prints as Go prints it. *)
Fixpoint Sprintf (format : string) (args : list string) : string :=
  match format with
  | EmptyString =>
      match args with
      | [] => ""
      | _ => "%!(EXTRA " ++ String.concat ", " (map (fun a => "string=" ++ a) args) ++ ")"
      end
  | String "%" (String "s" rest) =>
      match args with
      | a :: args' => a ++ Sprintf rest args'
      | [] => "%!s(MISSING)" ++ Sprintf rest []
      end
  | String "%" (String "%" rest) => String "%" (Sprintf rest args)
  | String c rest => String c (Sprintf rest args)
  end.

(** [s] occurs in [t] as a contiguous substring. *)
Definition contains (t s : string) : Prop :=
  exists pre post, t = pre ++ s ++ post.

(** ** JSON documents

    [encoding/json] is modelled at the level of the document a byte
    string denotes.  The strings inside a document are the decoded Go
    strings. *)
Inductive json : Type :=
| JNull
| JBool (b : bool)
| JNumber (literal : string)
| JString (s : string)
| JArray (items : list json)
| JObject (members : list (string * json)).

(** A byte string as the decoder's syntax check sees it: rejected with a
    syntax error, or the encoding of a document. *)
Inductive bytes : Type :=
| Malformed (syntax_error : error)
| Encoding (doc : json).

(** The JSON kind named in an [UnmarshalTypeError]. *)
Definition kind_of (v : json) : string :=
  match v with
  | JNull => "null"
  | JBool _ => "bool"
  | JNumber _ => "number"
  | JString _ => "string"
  | JArray _ => "array"
  | JObject _ => "object"
  end.

Definition UnmarshalTypeError (v : json) (gotype : string) : error :=
  "json: cannot unmarshal " ++ kind_of v ++ " into Go value of type " ++ gotype.

(** [Unmarshal] reports the earliest error and keeps decoding. *)
Definition earliest (e1 e2 : option error) : option error :=
  match e1 with Some _ => e1 | None => e2 end.

(** *** Matching object keys to struct fields

    A key selects the field whose name it equals, or else the field
    whose name it equals after case folding.  [foldName] upper-cases
    ASCII letters; the only runes outside ASCII that fold to an ASCII
    letter are U+017F (long s, bytes C5 BF) and U+212A (Kelvin sign,
    bytes E2 84 AA). *)
Definition upper (c : ascii) : ascii :=
  let n := nat_of_ascii c in
  if (97 <=? n)%nat && (n <=? 122)%nat then ascii_of_nat (n - 32) else c.

Fixpoint foldName (s : string) : string :=
  match s with
  | EmptyString => EmptyString
  | String c rest =>
      match nat_of_ascii c, rest with
      | 197, String d rest' =>
          if (nat_of_ascii d =? 191)%nat then String "S" (foldName rest')
          else String c (foldName rest)
      | 226, String d (String e rest'') =>
          if (nat_of_ascii d =? 132)%nat && (nat_of_ascii e =? 170)%nat
          then String "K" (foldName rest'')
          else String c (foldName rest)
      | _, _ => String (upper c) (foldName rest)
      end
  end.

Fixpoint index_where {A : Type} (p : A -> bool) (l : list A) : option nat :=
  match l with
  | [] => None
  | x :: l' => if p x then Some 0%nat else option_map S (index_where p l')
  end.

(** The position, in declaration order, of the field a key selects. *)
Definition field_of (names : list string) (key : string) : option nat :=
  match index_where (String.eqb key) names with
  | Some i => Some i
  | None => index_where (fun n => String.eqb (foldName key) (foldName n)) names
  end.

(** *** Decoding into a struct

    [set i v t] decodes the value [v] into field number [i] of [t]. *)
Section StructDecoder.
Context {T : Type}.
Variable gotype : string.
Variable names : list string.
Variable set : nat -> json -> T -> T * option error.

Fixpoint unmarshal_members (members : list (string * json)) (t : T)
  : T * option error :=
  match members with
  | [] => (t, None)
  | (key, v) :: rest =>
      match field_of names key with
      | Some i =>
          let '(t1, e1) := set i v t in
          let '(t2, e2) := unmarshal_members rest t1 in
          (t2, earliest e1 e2)
      | None => unmarshal_members rest t
      end
  end.

(** An object fills the fields it names, [null] changes nothing, any
    other value is a type error that leaves the struct as it is. *)
Definition unmarshal_struct (v : json) (t : T) : T * option error :=
  match v with
  | JObject members => unmarshal_members members t
  | JNull => (t, None)
  | _ => (t, Some (UnmarshalTypeError v gotype))
  end.
End StructDecoder.

Definition unmarshal_string (v : json) (old : string) : string * option error :=
  match v with
  | JString s => (s, None)
  | JNull => (old, None)
  | _ => (old, Some (UnmarshalTypeError v "string"))
  end.

(** An array resets the slice and appends each element decoded into a
    zero value; [null] makes the slice nil. *)
Definition unmarshal_slice {A : Type} (gotype : string) (zero : A)
  (elem : json -> A -> A * option error) (v : json) (old : slice A)
  : slice A * option error :=
  match v with
  | JArray items =>
      let decoded := map (fun item => elem item zero) items in
      (Some (map fst decoded), fold_right earliest None (map snd decoded))
  | JNull => (None, None)
  | _ => (old, Some (UnmarshalTypeError v gotype))
  end.

(** ** The decoded records

    The struct declarations are not part of [main.go]; the fields are
    those [main.go] reads, with the JSON names of the inbound payload and
    of the commit resource. *)

(** Modelled from the spec: the element type of [CloudBuildInfo.Steps],
    JSON names [id] and [status]. *)
Module Step.
Record t : Type := { ID : string; Status : string }.
Definition zero : t := {| ID := ""; Status := "" |}.
Definition names : list string := ["id"; "status"].
Definition set (i : nat) (v : json) (s : t) : t * option error :=
  match i with
  | 0%nat => let '(x, e) := unmarshal_string v (ID s) in
             ({| ID := x; Status := Status s |}, e)
  | 1%nat => let '(x, e) := unmarshal_string v (Status s) in
             ({| ID := ID s; Status := x |}, e)
  | _ => (s, None)
  end.
Definition unmarshal : json -> t -> t * option error :=
  unmarshal_struct "Step" names set.
Definition marshal (s : t) : json :=
  JObject [("id", JString (ID s)); ("status", JString (Status s))].
End Step.

(** Modelled from the spec: the type of [CloudBuildInfo.Substitutions],
    JSON names [COMMIT_SHA], [REPO_NAME], [BRANCH_NAME], [NAMESPACE]. *)
Module Substitutions.
Record t : Type :=
  { COMMITSHA : string; REPONAME : string; BRANCHNAME : string; NAMESPACE : string }.
Definition zero : t :=
  {| COMMITSHA := ""; REPONAME := ""; BRANCHNAME := ""; NAMESPACE := "" |}.
Definition names : list string :=
  ["COMMIT_SHA"; "REPO_NAME"; "BRANCH_NAME"; "NAMESPACE"].
Definition set (i : nat) (v : json) (s : t) : t * option error :=
  match i with
  | 0%nat => let '(x, e) := unmarshal_string v (COMMITSHA s) in
             ({| COMMITSHA := x; REPONAME := REPONAME s;
                 BRANCHNAME := BRANCHNAME s; NAMESPACE := NAMESPACE s |}, e)
  | 1%nat => let '(x, e) := unmarshal_string v (REPONAME s) in
             ({| COMMITSHA := COMMITSHA s; REPONAME := x;
                 BRANCHNAME := BRANCHNAME s; NAMESPACE := NAMESPACE s |}, e)
  | 2%nat => let '(x, e) := unmarshal_string v (BRANCHNAME s) in
             ({| COMMITSHA := COMMITSHA s; REPONAME := REPONAME s;
                 BRANCHNAME := x; NAMESPACE := NAMESPACE s |}, e)
  | 3%nat => let '(x, e) := unmarshal_string v (NAMESPACE s) in
             ({| COMMITSHA := COMMITSHA s; REPONAME := REPONAME s;
                 BRANCHNAME := BRANCHNAME s; NAMESPACE := x |}, e)
  | _ => (s, None)
  end.
Definition unmarshal : json -> t -> t * option error :=
  unmarshal_struct "Substitutions" names set.
Definition marshal (s : t) : json :=
  JObject [("COMMIT_SHA", JString (COMMITSHA s)); ("REPO_NAME", JString (REPONAME s));
           ("BRANCH_NAME", JString (BRANCHNAME s)); ("NAMESPACE", JString (NAMESPACE s))].
End Substitutions.

(** Modelled from the spec: the struct [CloudBuildInfo] that
    [json.Unmarshal(msg.Data, &cloudBuildInfo)] fills, JSON names
    [status], [steps], [substitutions]. *)
Module CloudBuildInfo.
Record t : Type :=
  { Status : string; Steps : slice Step.t; Substitutions : Substitutions.t }.
Definition zero : t :=
  {| Status := ""; Steps := None; Substitutions := Substitutions.zero |}.
Definition names : list string := ["status"; "steps"; "substitutions"].
Definition set (i : nat) (v : json) (c : t) : t * option error :=
  match i with
  | 0%nat => let '(x, e) := unmarshal_string v (Status c) in
             ({| Status := x; Steps := Steps c; Substitutions := Substitutions c |}, e)
  | 1%nat => let '(x, e) :=
                 unmarshal_slice "[]Step" Step.zero Step.unmarshal v (Steps c) in
             ({| Status := Status c; Steps := x; Substitutions := Substitutions c |}, e)
  | 2%nat => let '(x, e) := Substitutions.unmarshal v (Substitutions c) in
             ({| Status := Status c; Steps := Steps c; Substitutions := x |}, e)
  | _ => (c, None)
  end.
Definition unmarshal : json -> t -> t * option error :=
  unmarshal_struct "CloudBuildInfo" names set.
Definition marshal_steps (s : slice Step.t) : json :=
  match s with
  | None => JNull
  | Some l => JArray (map Step.marshal l)
  end.
Definition marshal (c : t) : json :=
  JObject [("status", JString (Status c)); ("steps", marshal_steps (Steps c));
           ("substitutions", Substitutions.marshal (Substitutions c))].

(** [json.Unmarshal(data, &c)]: a syntax error leaves [c] untouched. *)
Definition Unmarshal (data : bytes) (c : t) : t * option error :=
  match data with
  | Malformed e => (c, Some e)
  | Encoding doc => unmarshal doc c
  end.

(** [json.Marshal(c)] *)
Definition Marshal (c : t) : bytes := Encoding (marshal c).
End CloudBuildInfo.

(** Modelled from the spec: the [author] and [committer] objects of the
    commit resource, JSON names [name] and [email]. *)
Module Person.
Record t : Type := { Name : string; Email : string }.
Definition zero : t := {| Name := ""; Email := "" |}.
Definition names : list string := ["name"; "email"].
Definition set (i : nat) (v : json) (p : t) : t * option error :=
  match i with
  | 0%nat => let '(x, e) := unmarshal_string v (Name p) in
             ({| Name := x; Email := Email p |}, e)
  | 1%nat => let '(x, e) := unmarshal_string v (Email p) in
             ({| Name := Name p; Email := x |}, e)
  | _ => (p, None)
  end.
Definition unmarshal : json -> t -> t * option error :=
  unmarshal_struct "Person" names set.
End Person.

(** Modelled from the spec: the struct [GithubInfo] that [GetGithubInfo]
    returns, JSON names [message], [html_url], [author], [committer]. *)
Module GithubInfo.
Record t : Type :=
  { Message : string; HTML_URL : string; Author : Person.t; Committer : Person.t }.
Definition zero : t :=
  {| Message := ""; HTML_URL := ""; Author := Person.zero; Committer := Person.zero |}.
Definition names : list string := ["message"; "html_url"; "author"; "committer"].
Definition set (i : nat) (v : json) (g : t) : t * option error :=
  match i with
  | 0%nat => let '(x, e) := unmarshal_string v (Message g) in
             ({| Message := x; HTML_URL := HTML_URL g;
                 Author := Author g; Committer := Committer g |}, e)
  | 1%nat => let '(x, e) := unmarshal_string v (HTML_URL g) in
             ({| Message := Message g; HTML_URL := x;
                 Author := Author g; Committer := Committer g |}, e)
  | 2%nat => let '(x, e) := Person.unmarshal v (Author g) in
             ({| Message := Message g; HTML_URL := HTML_URL g;
                 Author := x; Committer := Committer g |}, e)
  | 3%nat => let '(x, e) := Person.unmarshal v (Committer g) in
             ({| Message := Message g; HTML_URL := HTML_URL g;
                 Author := Author g; Committer := x |}, e)
  | _ => (g, None)
  end.
Definition unmarshal : json -> t -> t * option error :=
  unmarshal_struct "GithubInfo" names set.
Definition Unmarshal (data : bytes) (g : t) : t * option error :=
  match data with
  | Malformed e => (g, Some e)
  | Encoding doc => unmarshal doc g
  end.
End GithubInfo.

(** ** The outside world: HTTP, environment, log, subscription *)

Module Request.
Record t : Type :=
  { Method : string; URL : string; Header : list (string * string); Body : option bytes }.
End Request.

(** What [ioutil.ReadAll] finds when it drains a response body. *)
Inductive body : Type :=
| ReadError (e : error)
| Content (data : bytes).

Module Response.
Record t : Type := { StatusCode : Z; Body : body }.
End Response.

(** The pair [(res, err)] returned by [client.Do]: a response
    and no error; no response and an error (the request could not be
    sent or answered); or, when the redirect policy fails, a response
    whose body is already closed together with an error. *)
Inductive DoResult : Type :=
| DoResponse (res : Response.t)
| DoError (err : error)
| DoRedirectError (res : Response.t) (err : error).

Definition ErrBodyReadAfterClose : error := "http: read on closed response body".

Definition res_of (r : DoResult) : option Response.t :=
  match r with
  | DoResponse res => Some res
  | DoError _ => None
  | DoRedirectError res _ =>
      Some {| Response.StatusCode := Response.StatusCode res;
              Response.Body := ReadError ErrBodyReadAfterClose |}
  end.

Definition err_of (r : DoResult) : option error :=
  match r with
  | DoResponse _ => None
  | DoError err => Some err
  | DoRedirectError _ err => Some err
  end.

(** What surrounds one callback invocation: the process environment,
    the URL parser behind [http.NewRequest] ([Some e] when the raw URL
    does not parse) and the network. *)
Record Env : Type :=
  { Getenv : string -> string;
    ParseURL : string -> option error;
    Do : Request.t -> DoResult }.

(** A [pubsub.Message]. *)
Record Message : Type := { Data : bytes }.

(** Externally visible actions, in the order they happen. *)
Inductive effect : Type :=
| Ack
| Log (line : string)
| Sleep (minutes : Z)
| HTTP (req : Request.t)
| Lock
| Unlock.

(** [fmt.Sprintln]: operands separated by spaces, then a newline. *)
Definition Sprintln (args : list string) : string :=
  String.concat " " args ++ LF.

(** ** The callback monad

    [failureStep] and [message] are declared in [pullMsgs], outside the
    function literal passed to [Receive]: every invocation of the
    callback reads and writes the same two variables. *)
Record Shared : Type := { failureStep : string; message : string }.

Inductive result (A : Type) : Type :=
| Returned (a : A)
| Panicked (reason : string).
Arguments Returned {A} a.
Arguments Panicked {A} reason.

Definition M (A : Type) : Type := Shared -> result A * Shared * list effect.

Definition ret {A : Type} (a : A) : M A := fun s => (Returned a, s, []).

Definition bind {A B : Type} (m : M A) (k : A -> M B) : M B :=
  fun s =>
    match m s with
    | (Returned a, s1, t1) =>
        let '(r, s2, t2) := k a s1 in (r, s2, (t1 ++ t2)%list)
    | (Panicked reason, s1, t1) => (Panicked reason, s1, t1)
    end.

Declare Scope go_scope.
Delimit Scope go_scope with go.
Notation "x <- m ;; k" := (bind m (fun x => k))
  (at level 61, m at next level, right associativity) : go_scope.
Notation "m ;; k" := (bind m (fun _ => k))
  (at level 61, right associativity) : go_scope.
Local Open Scope go_scope.

Definition emit (e : effect) : M unit := fun s => (Returned tt, s, [e]).
Definition panic {A : Type} (reason : string) : M A :=
  fun s => (Panicked reason, s, []).
Definition get_failureStep : M string := fun s => (Returned (failureStep s), s, []).
Definition get_message : M string := fun s => (Returned (message s), s, []).
Definition set_failureStep (v : string) : M unit :=
  fun s => (Returned tt, {| failureStep := v; message := message s |}, []).
Definition set_message (v : string) : M unit :=
  fun s => (Returned tt, {| failureStep := failureStep s; message := v |}, []).

(** [for _, x := range l { body x }] *)
Fixpoint for_range {A : Type} (l : list A) (body : A -> M unit) : M unit :=
  match l with
  | [] => ret tt
  | x :: l' => body x ;; for_range l' body
  end.

Definition outcome {A : Type} (x : result A * Shared * list effect) : result A :=
  fst (fst x).
Definition final {A : Type} (x : result A * Shared * list effect) : Shared :=
  snd (fst x).
Definition trace {A : Type} (x : result A * Shared * list effect) : list effect :=
  snd x.

(** ** net/http *)

(** [http.NewRequest(method, url, body)] with a valid method: fails
    exactly when the URL does not parse. *)
Definition NewRequest (env : Env) (method url : string) (payload : option bytes)
  : Request.t * option error :=
  match ParseURL env url with
  | Some e => ({| Request.Method := ""; Request.URL := ""; Request.Header := [];
                  Request.Body := None |}, Some e)
  | None => ({| Request.Method := method; Request.URL := url; Request.Header := [];
                Request.Body := payload |}, None)
  end.

(** [req.Header.Add(key, value)] *)
Definition Header_Add (req : Request.t) (key value : string) : Request.t :=
  {| Request.Method := Request.Method req; Request.URL := Request.URL req;
     Request.Header := (Request.Header req ++ [(key, value)])%list;
     Request.Body := Request.Body req |}.

(** [client.Do(req)] *)
Definition client_Do (env : Env) (req : Request.t) : M DoResult :=
  emit (HTTP req) ;; ret (Do env req).

(** [json.Marshal] of a [map[string]string] with the single key the
    program stores; it has no failing case. *)
Definition Marshal_map (key value : string) : bytes * option error :=
  (Encoding (JObject [(key, JString value)]), None).

Definition nil_dereference : string :=
  "runtime error: invalid memory address or nil pointer dereference".

(** ** GetGithubInfo

    The error of [client.Do] is overwritten by the next assignment
    without being looked at, and [defer res.Body.Close()] evaluates
    [res.Body] at once: with no response, [res] is nil and the selector
    panics. *)
Definition GetGithubInfo (env : Env) (commitRSA repo : string)
  : M (GithubInfo.t * option error) :=
  let url := Sprintf "https://api.github.com/repos/trunghlt/%s/git/commits/%s"
                     [repo; commitRSA] in
  let method := "GET" in
  let '(req, err) := NewRequest env method url None in
  if is_err err then ret (GithubInfo.zero, err) else
  let req := Header_Add req "Authorization"
                        (Sprintf "Basic %s" [Getenv env "GITHUB_TOKEN"]) in
  r <- client_Do env req ;;
  match res_of r with
  | None => panic nil_dereference
  | Some res =>
      match Response.Body res with
      | ReadError e => ret (GithubInfo.zero, Some e)
      | Content data =>
          let '(githubData, err) := GithubInfo.Unmarshal data GithubInfo.zero in
          if is_err err then ret (GithubInfo.zero, err)
          else ret (githubData, None)
      end
  end.

(** ** PushMessageToChatHangout *)
Definition delivery_failed : error := "Push message to hangout failed ".

Definition PushMessageToChatHangout (env : Env) (msg : string) : M (option error) :=
  let url := Getenv env "HANGOUT_URL" in
  let method := "POST" in
  let '(payload, err) := Marshal_map "text" msg in
  if is_err err then ret err else
  let '(req, err) := NewRequest env method url (Some payload) in
  if is_err err then ret err else
  let req := Header_Add req "Content-Type" "application/json" in
  r <- client_Do env req ;;
  if is_err (err_of r) then ret (err_of r) else
  match res_of r with
  | None => panic nil_dereference
  | Some res =>
      if negb (Response.StatusCode res =? 200)%Z then ret (Some delivery_failed)
      else
        emit (Log (Sprintln ["A message has been sent to Cloud-build CI Room: "; msg])) ;;
        ret None
  end.

(** ** The callback of pullMsgs *)

(** The tail shared by the three message templates. *)
Definition details : string :=
  Eval cbv in
    ("Detail infomations: ```Repo: %s" ++ LF ++ "Branch: %s" ++ LF
     ++ "Commit message: %s" ++ LF ++ "Commit Url: %s" ++ LF
     ++ "Author: %s(%s)" ++ LF ++ "Committer:%s(%s)" ++ LF ++ "```").

Definition superset_success : string :=
  Eval cbv in
    ("The new version of *actable-dev* was available in https://dev-nightly.actable.ai. "
     ++ details).

Definition superset_failure : string :=
  Eval cbv in
    ("The deployment of *actable-dev* on https://dev-nightly.actable.ai has been stopped with status *%s* at step *%s*. "
     ++ details).

Definition strand_failure : string :=
  Eval cbv in
    ("Cloud build for *%s* has been finished with status *%s* at step *%s*. "
     ++ details).

(** The operands every template ends with. *)
Definition detail_args (c : CloudBuildInfo.t) (githubData : GithubInfo.t) : list string :=
  [Substitutions.REPONAME (CloudBuildInfo.Substitutions c);
   Substitutions.BRANCHNAME (CloudBuildInfo.Substitutions c);
   GithubInfo.Message githubData; GithubInfo.HTML_URL githubData;
   Person.Name (GithubInfo.Author githubData);
   Person.Email (GithubInfo.Author githubData);
   Person.Name (GithubInfo.Committer githubData);
   Person.Email (GithubInfo.Committer githubData)].

(** Lines 54-58: the loop that records the failed step. *)
Definition locate (steps : slice Step.t) : M unit :=
  for_range (elems steps) (fun step =>
    if Step.Status step =? "FAILURE" then set_failureStep (Step.ID step)
    else ret tt).

(** Lines 78-87: the function literal computing [buildType]. *)
Definition buildType (c : CloudBuildInfo.t) : string :=
  if Substitutions.NAMESPACE (CloudBuildInfo.Substitutions c) =? "test"
  then "unit-testing"
  else if Substitutions.BRANCHNAME (CloudBuildInfo.Substitutions c) =? "dev"
       then "nightly"
       else "production".

(** Lines 63-93: the branch and repository switch that assigns
    [message]. *)
Definition format (c : CloudBuildInfo.t) (githubData : GithubInfo.t) : M unit :=
  let branch := Substitutions.BRANCHNAME (CloudBuildInfo.Substitutions c) in
  let repo := Substitutions.REPONAME (CloudBuildInfo.Substitutions c) in
  if (branch =? "dev") || (branch =? "master") then
    if repo =? "superset" then
      if CloudBuildInfo.Status c =? "SUCCESS" then
        emit (Sleep 6) ;;
        set_message (Sprintf superset_success (detail_args c githubData))
      else if CloudBuildInfo.Status c =? "FAILURE" then
        step <- get_failureStep ;;
        set_message (Sprintf superset_failure
                       (CloudBuildInfo.Status c :: step :: detail_args c githubData))
      else ret tt
    else if repo =? "ProjectStrand" then
      if CloudBuildInfo.Status c =? "FAILURE" then
        step <- get_failureStep ;;
        set_message (Sprintf strand_failure
                       (buildType c :: CloudBuildInfo.Status c :: step
                          :: detail_args c githubData))
      else ret tt
    else ret tt
  else ret tt.

(** Lines 94-100: send a non-empty [message] and clear it. *)
Definition deliver (env : Env) : M unit :=
  msg <- get_message ;;
  if negb (msg =? "") then
    err <- PushMessageToChatHangout env msg ;;
    match err with
    | Some e => emit (Log (Sprintln [e]))
    | None => ret tt
    end ;;
    set_message ""
  else ret tt.

(** Lines 54-103: everything after the payload has been decoded. *)
Definition process (env : Env) (cloudBuildInfo : CloudBuildInfo.t) : M unit :=
  locate (CloudBuildInfo.Steps cloudBuildInfo) ;;
  r <- GetGithubInfo env
         (Substitutions.COMMITSHA (CloudBuildInfo.Substitutions cloudBuildInfo))
         (Substitutions.REPONAME (CloudBuildInfo.Substitutions cloudBuildInfo)) ;;
  match snd r with
  | Some e => emit (Log (Sprintln [e]))
  | None => ret tt
  end ;;
  format cloudBuildInfo (fst r) ;;
  deliver env ;;
  emit Lock ;;
  emit Unlock.

(** Lines 47-103: the function literal passed to [sub.Receive]. *)
Definition callback (env : Env) (msg : Message) : M unit :=
  emit Ack ;;
  let '(cloudBuildInfo, err) :=
    CloudBuildInfo.Unmarshal (Data msg) CloudBuildInfo.zero in
  match err with
  | Some e => emit (Log (Sprintf ("Got err: %s" ++ LF) [e]))
  | None => ret tt
  end ;;
  process env cloudBuildInfo.

(** [sub.Receive]: the callback runs once per delivered message, each in
    the world it is delivered in; a panic ends the process; when the
    stream ends, [Receive] returns the subscription's error.  The
    callbacks run one after the other here, in delivery order. *)
Fixpoint Receive (deliveries : list (Env * Message)) (stop : option error)
  : M (option error) :=
  match deliveries with
  | [] => ret stop
  | (env, msg) :: rest => callback env msg ;; Receive rest stop
  end.

(** [pullMsgs]: the two captured variables start as empty strings. *)
Definition initial : Shared := {| failureStep := ""; message := "" |}.

Definition pullMsgs (deliveries : list (Env * Message)) (stop : option error)
  : result (option error) * Shared * list effect :=
  Receive deliveries stop initial.

(** The values the captured variables can have when a callback starts. *)
Inductive reachable : Shared -> Prop :=
| reach_initial : reachable initial
| reach_callback : forall s env msg,
    reachable s ->
    outcome (callback env msg s) = Returned tt ->
    reachable (final (callback env msg s)).

(** ** Vocabulary of the statements *)

(** A step the locator looks for. *)
Definition failed (step : Step.t) : Prop := Step.Status step = "FAILURE".

(** A computation that never emits an effect outside [P]. *)
Definition emits {A : Type} (P : effect -> Prop) (m : M A) : Prop :=
  forall s, Forall P (trace (m s)).

(** The requests of a trace that were POSTed. *)
Definition posts (t : list effect) : list Request.t :=
  flat_map (fun e => match e with
                     | HTTP req => if Request.Method req =? "POST" then [req] else []
                     | _ => []
                     end) t.

(** The request [GetGithubInfo] sends. *)
Definition github_request (env : Env) (commitRSA repo : string) : Request.t :=
  {| Request.Method := "GET";
     Request.URL := "https://api.github.com/repos/trunghlt/" ++ repo
                    ++ "/git/commits/" ++ commitRSA;
     Request.Header := [("Authorization", "Basic " ++ Getenv env "GITHUB_TOKEN")];
     Request.Body := None |}.

(** The request [PushMessageToChatHangout] sends. *)
Definition hangout_request (env : Env) (msg : string) : Request.t :=
  {| Request.Method := "POST";
     Request.URL := Getenv env "HANGOUT_URL";
     Request.Header := [("Content-Type", "application/json")];
     Request.Body := Some (Encoding (JObject [("text", JString msg)])) |}.

(** What [if err != nil { log.Println(err) }] writes. *)
Definition log_error (err : option error) : list effect :=
  match err with
  | Some e => [Log (Sprintln [e])]
  | None => []
  end.

(** What the callback writes after decoding the payload. *)
Definition decode_log (err : option error) : list effect :=
  match err with
  | Some e => [Log (Sprintf ("Got err: %s" ++ LF) [e])]
  | None => []
  end.

(** The tail of every message, with its operands in place. *)
Definition detail_text (repo branch msg url an ae cn ce : string) : string :=
  "Detail infomations: ```Repo: " ++ repo ++ LF ++ "Branch: " ++ branch ++ LF
  ++ "Commit message: " ++ msg ++ LF ++ "Commit Url: " ++ url ++ LF
  ++ "Author: " ++ an ++ "(" ++ ae ++ ")" ++ LF
  ++ "Committer:" ++ cn ++ "(" ++ ce ++ ")" ++ LF ++ "```".

(** ** Sample worlds and events *)

(** A commit resource as the API returns it, and its decoding. *)
Definition commit_document : json :=
  JObject [("message", JString "fix build"); ("html_url", JString "https://example.org/c/abc");
           ("author", JObject [("name", JString "Ann"); ("email", JString "ann@example.org")]);
           ("committer", JObject [("name", JString "Bob"); ("email", JString "bob@example.org")])].

Definition sample_commit : GithubInfo.t :=
  {| GithubInfo.Message := "fix build";
     GithubInfo.HTML_URL := "https://example.org/c/abc";
     GithubInfo.Author := {| Person.Name := "Ann"; Person.Email := "ann@example.org" |};
     GithubInfo.Committer := {| Person.Name := "Bob"; Person.Email := "bob@example.org" |} |}.

Definition sample_getenv (key : string) : string :=
  if key =? "HANGOUT_URL" then "https://chat.example.org/hook"
  else if key =? "GITHUB_TOKEN" then "token"
  else "".

(** Every URL parses, the commit API answers with [commit_document] and
    the webhook answers with the given status. *)
Definition answering_env (webhook_status : Z) : Env :=
  {| Getenv := sample_getenv;
     ParseURL := fun _ => None;
     Do := fun req =>
             if Request.Method req =? "GET"
             then DoResponse {| Response.StatusCode := 200;
                                Response.Body := Content (Encoding commit_document) |}
             else DoResponse {| Response.StatusCode := webhook_status;
                                Response.Body := Content (Encoding JNull) |} |}.

(** Every URL parses and no request gets through. *)
Definition unreachable_env : Env :=
  {| Getenv := sample_getenv;
     ParseURL := fun _ => None;
     Do := fun _ => DoError "dial tcp: connection refused" |}.

(** The webhook URL does not parse (say it lacks a scheme); the network
    itself would answer 200 to anything. *)
Definition unparsable_env : Env :=
  {| Getenv := fun key => if key =? "HANGOUT_URL" then ":hook" else "token";
     ParseURL := fun url => if url =? ":hook" then Some "missing protocol scheme" else None;
     Do := fun _ => DoResponse {| Response.StatusCode := 200;
                                  Response.Body := Content (Encoding JNull) |} |}.

(** A build event with commit [abc], and the message that carries it. *)
Definition step (id status : string) : Step.t :=
  {| Step.ID := id; Step.Status := status |}.

Definition build (status : string) (steps : list Step.t) (repo branch namespace : string)
  : CloudBuildInfo.t :=
  {| CloudBuildInfo.Status := status;
     CloudBuildInfo.Steps := Some steps;
     CloudBuildInfo.Substitutions :=
       {| Substitutions.COMMITSHA := "abc"; Substitutions.REPONAME := repo;
          Substitutions.BRANCHNAME := branch; Substitutions.NAMESPACE := namespace |} |}.

Definition event (status : string) (steps : list Step.t) (repo branch namespace : string)
  : Message :=
  {| Data := CloudBuildInfo.Marshal (build status steps repo branch namespace) |}.

(** The commit API answers 404 with its usual JSON error document. *)
Definition not_found_env : Env :=
  {| Getenv := sample_getenv;
     ParseURL := fun _ => None;
     Do := fun req =>
             if Request.Method req =? "GET"
             then DoResponse {| Response.StatusCode := 404;
                                Response.Body :=
                                  Content (Encoding (JObject [("message", JString "Not Found")])) |}
             else DoResponse {| Response.StatusCode := 200;
                                Response.Body := Content (Encoding JNull) |} |}.

(** The commit API answers with a document whose [html_url] is a number. *)
Definition mistyped_env : Env :=
  {| Getenv := sample_getenv;
     ParseURL := fun _ => None;
     Do := fun _ =>
             DoResponse {| Response.StatusCode := 200;
                           Response.Body :=
                             Content (Encoding (JObject [("message", JString "fix build");
                                                         ("html_url", JNumber "5")])) |} |}.

(** ** More vocabulary *)

(** How many times a trace acknowledges. *)
Definition acks (t : list effect) : nat :=
  length (filter (fun e => match e with Ack => true | _ => false end) t).

(** When the formatter assigns [message]. *)
Definition notifies (c : CloudBuildInfo.t) : Prop :=
  let branch := Substitutions.BRANCHNAME (CloudBuildInfo.Substitutions c) in
  let repo := Substitutions.REPONAME (CloudBuildInfo.Substitutions c) in
  (branch = "dev" \/ branch = "master")
  /\ (repo = "superset"
        /\ (CloudBuildInfo.Status c = "SUCCESS" \/ CloudBuildInfo.Status c = "FAILURE")
      \/ repo = "ProjectStrand" /\ CloudBuildInfo.Status c = "FAILURE").

(** ** init and main (lines 20-39)

    What the process meets when it starts: the result of
    [godotenv.Load], the environment it reads [PROJECT_ID] from and the
    result of [pubsub.NewClient] for a project id. *)
Record Startup : Type :=
  { Load : option error;
    environ : string -> string;
    NewClient : string -> option error }.

(** How the process ends: [os.Exit] from a [log.Fatal], an escaped
    panic, or [main] returning. *)
Inductive termination : Type :=
| Exit (status : Z)
| Crash (reason : string)
| Done.

(** [main]: a failing [NewClient] and an error returned by [pullMsgs]
    are both fatal.  The verb [%v] applied to an error prints its text. *)
Definition main (st : Startup) (deliveries : list (Env * Message)) (stop : option error)
  : termination * list effect :=
  let proj := environ st "PROJECT_ID" in
  match NewClient st proj with
  | Some e => (Exit 1, [Log ("Could not create pubsub Client: " ++ e)])
  | None =>
      let starting := Log "Starting collect notify from cloudbuild server..." in
      match pullMsgs deliveries stop with
      | (Panicked reason, _, t) => (Crash reason, starting :: t)
      | (Returned (Some e), _, t) => (Exit 1, (starting :: t ++ [Log e])%list)
      | (Returned None, _, t) => (Done, starting :: t)
      end
  end.

(** [init] runs before [main]: without the [.env] file the process
    stops there. *)
Definition run (st : Startup) (deliveries : list (Env * Message)) (stop : option error)
  : termination * list effect :=
  match Load st with
  | Some _ => (Exit 1, [Log (Sprintln ["Failed to load env file"])])
  | None => main st deliveries stop
  end.

(** ** The inbound payload as a document

    The payload the specification describes: an object with a string
    [status], an array [steps] of objects with strings [id] and
    [status], and an object [substitutions] with the strings
    [COMMIT_SHA], [REPO_NAME], [BRANCH_NAME] and [NAMESPACE].  Other
    members may be present, in any order. *)

(** The value of the member called [key] in an object. *)
Definition member (key : string) (doc : json) : option json :=
  match doc with
  | JObject members => option_map snd (find (fun kv => fst kv =? key) members)
  | _ => None
  end.

(** An object none of whose names occurs twice, names being compared
    as the decoder compares them. *)
Definition names_distinct (doc : json) : Prop :=
  match doc with
  | JObject members => NoDup (map (fun kv => foldName (fst kv)) members)
  | _ => False
  end.

Definition string_member (key : string) (doc : json) : Prop :=
  exists s, member key doc = Some (JString s).

Definition well_formed_step (v : json) : Prop :=
  names_distinct v /\ string_member "id" v /\ string_member "status" v.

Definition well_formed_substitutions (v : json) : Prop :=
  names_distinct v
  /\ string_member "COMMIT_SHA" v /\ string_member "REPO_NAME" v
  /\ string_member "BRANCH_NAME" v /\ string_member "NAMESPACE" v.

Definition well_formed (doc : json) : Prop :=
  names_distinct doc
  /\ string_member "status" doc
  /\ (exists items, member "steps" doc = Some (JArray items)
                    /\ Forall well_formed_step items)
  /\ (exists subs, member "substitutions" doc = Some subs
                   /\ well_formed_substitutions subs).

(** What the claim compares in a step: its id and its status. *)
Definition step_fields (v : json) : option json * option json :=
  (member "id" v, member "status" v).

(** * Properties *)

(** ** Strings *)

Lemma append_assoc (a b c : string) : (a ++ b) ++ c = a ++ (b ++ c).
Proof. induction a as [|x a IH]; simpl; [reflexivity | now rewrite IH]. Qed.

Lemma append_nil_r (a : string) : a ++ "" = a.
Proof. induction a as [|x a IH]; simpl; [reflexivity | now rewrite IH]. Qed.

Lemma contains_skip (pre t s : string) : contains t s -> contains (pre ++ t) s.
Proof.
  intros (p & q & ->). exists (pre ++ p), q. now rewrite append_assoc.
Qed.

(** ** The monad *)

Lemma bind_returned {A B : Type} (m : M A) (k : A -> M B) s a s1 t1 :
  m s = (Returned a, s1, t1) ->
  bind m k s = (outcome (k a s1), final (k a s1), (t1 ++ trace (k a s1))%list).
Proof.
  unfold bind, outcome, final, trace. intros ->.
  destruct (k a s1) as [[r s2] t2]. reflexivity.
Qed.

Lemma bind_panicked {A B : Type} (m : M A) (k : A -> M B) s reason s1 t1 :
  m s = (Panicked reason, s1, t1) ->
  bind m k s = (Panicked reason, s1, t1).
Proof. unfold bind. intros ->. reflexivity. Qed.

Lemma emits_ret {A : Type} P (a : A) : emits P (ret a).
Proof. intros s. constructor. Qed.

Lemma emits_panic {A : Type} P reason : emits P (@panic A reason).
Proof. intros s. constructor. Qed.

Lemma emits_emit P e : P e -> emits P (emit e).
Proof. intros H s. repeat constructor. exact H. Qed.

Lemma emits_bind {A B : Type} P (m : M A) (k : A -> M B) :
  emits P m -> (forall a, emits P (k a)) -> emits P (bind m k).
Proof.
  intros Hm Hk s. specialize (Hm s). unfold bind, trace in *.
  destruct (m s) as [[[a|reason] s1] t1]; simpl in *; [|exact Hm].
  specialize (Hk a s1). unfold trace in Hk.
  destruct (k a s1) as [[r s2] t2]. simpl in *.
  apply Forall_app. split; assumption.
Qed.

Lemma emits_get_failureStep P : emits P get_failureStep.
Proof. intros s. constructor. Qed.

Lemma emits_get_message P : emits P get_message.
Proof. intros s. constructor. Qed.

Lemma emits_set_failureStep P v : emits P (set_failureStep v).
Proof. intros s. constructor. Qed.

Lemma emits_set_message P v : emits P (set_message v).
Proof. intros s. constructor. Qed.

Lemma emits_for_range {A : Type} P (l : list A) (f : A -> M unit) :
  (forall x, emits P (f x)) -> emits P (for_range l f).
Proof.
  intros Hf. induction l as [|x l IH]; simpl.
  - apply emits_ret.
  - apply emits_bind; [apply Hf | intros _; exact IH].
Qed.

Create HintDb emits.
#[local] Hint Resolve emits_ret emits_panic emits_emit emits_get_failureStep
  emits_get_message emits_set_failureStep emits_set_message : emits.

Ltac emits_step :=
  match goal with
  | |- emits _ (bind _ _) => apply emits_bind; [|intros ?]
  | |- emits _ (for_range _ _) => apply emits_for_range; intros ?
  | |- emits _ (if ?b then _ else _) => destruct b
  | |- emits _ (match ?x with Some _ => _ | None => _ end) => destruct x
  | |- emits _ (let '(_, _) := ?x in _) => destruct x
  | |- emits _ _ => solve [auto with emits]
  end.

(** ** The failure locator (lines 54-58) *)

(** The loop touches nothing but [failureStep], never panics and emits
    nothing. *)
Lemma locate_cons (step : Step.t) (l : list Step.t) (s : Shared) :
  locate (Some (step :: l)) s =
  locate (Some l)
    (if Step.Status step =? "FAILURE"
     then {| failureStep := Step.ID step; message := message s |} else s).
Proof.
  unfold locate. simpl. unfold bind.
  destruct (Step.Status step =? "FAILURE"); simpl;
    match goal with |- context [for_range ?l ?f ?s] =>
      destruct (for_range l f s) as [[[[]|?] ?] ?] end; reflexivity.
Qed.

Lemma locate_no_failure (l : list Step.t) (s : Shared) :
  Forall (fun step => ~ failed step) l ->
  locate (Some l) s = (Returned tt, s, []).
Proof.
  induction 1 as [|step l Hstep _ IH].
  - reflexivity.
  - rewrite locate_cons. unfold failed in Hstep.
    destruct (String.eqb_spec (Step.Status step) "FAILURE"); [contradiction|].
    exact IH.
Qed.

Lemma locate_message (l : list Step.t) (s : Shared) :
  exists step, locate (Some l) s =
               (Returned tt, {| failureStep := step; message := message s |}, []).
Proof.
  revert s. induction l as [|x l IH]; intros s.
  - exists (failureStep s). destruct s. reflexivity.
  - rewrite locate_cons. destruct (Step.Status x =? "FAILURE").
    + destruct (IH {| failureStep := Step.ID x; message := message s |}) as [v Hv].
      exists v. exact Hv.
    + apply IH.
Qed.

Lemma locate_app (l1 l2 : list Step.t) (s : Shared) :
  locate (Some (l1 ++ l2)%list) s = locate (Some l2) (final (locate (Some l1) s)).
Proof.
  revert s. induction l1 as [|x l1 IH]; intros s.
  - reflexivity.
  - simpl app. rewrite !locate_cons. apply IH.
Qed.

(** With a failed step present, the loop ends with the id of the last
    one, whatever the variable held before. *)
Lemma locate_last_failure (l1 l2 : list Step.t) (step : Step.t) (s : Shared) :
  failed step ->
  Forall (fun x => ~ failed x) l2 ->
  locate (Some (l1 ++ step :: l2)%list) s =
  (Returned tt, {| failureStep := Step.ID step; message := message s |}, []).
Proof.
  intros Hstep Hl2. rewrite locate_app, locate_cons.
  unfold failed in Hstep. rewrite Hstep. simpl.
  destruct (locate_message l1 s) as [v ->]. simpl.
  apply locate_no_failure. exact Hl2.
Qed.

(** The example of the specification, from any starting value. *)
Lemma locate_A_B_C (s : Shared) :
  failureStep
    (final (locate (Some [ {| Step.ID := "A"; Step.Status := "SUCCESS" |};
                           {| Step.ID := "B"; Step.Status := "FAILURE" |};
                           {| Step.ID := "C"; Step.Status := "FAILURE" |} ]) s))
  = "C".
Proof. reflexivity. Qed.

(** Without a failed step the variable keeps the value it had. *)
Lemma locate_keeps (steps : slice Step.t) (s : Shared) :
  Forall (fun step => ~ failed step) (elems steps) ->
  failureStep (final (locate steps s)) = failureStep s.
Proof.
  intros H. destruct steps as [l|]; [|reflexivity].
  simpl in H. now rewrite locate_no_failure.
Qed.

(** ** The commit enricher (GetGithubInfo) *)

Lemma github_url (commitRSA repo : string) :
  Sprintf "https://api.github.com/repos/trunghlt/%s/git/commits/%s" [repo; commitRSA]
  = "https://api.github.com/repos/trunghlt/" ++ repo ++ "/git/commits/" ++ commitRSA.
Proof.
  cbn. repeat f_equal.
  induction repo as [|c repo IH]; cbn; [|now rewrite IH].
  repeat f_equal. now rewrite append_nil_r.
Qed.

Lemma basic_token (token : string) : Sprintf "Basic %s" [token] = "Basic " ++ token.
Proof. cbn. now rewrite append_nil_r. Qed.

(** [GetGithubInfo] never touches the captured variables and performs
    at most one exchange, the GET. *)
Lemma GetGithubInfo_frame (env : Env) (commitRSA repo : string) (s : Shared) :
  exists r t, GetGithubInfo env commitRSA repo s = (r, s, t)
              /\ (t = [] \/ t = [HTTP (github_request env commitRSA repo)]).
Proof.
  unfold GetGithubInfo, NewRequest. rewrite github_url, basic_token.
  destruct (ParseURL env _) as [e|]; simpl.
  - eexists _, _. split; [reflexivity | now left].
  - unfold bind, client_Do, emit, ret, Header_Add, github_request. simpl.
    destruct (res_of (Do env _)) as [res|]; simpl.
    + destruct (Response.Body res) as [e|data]; simpl.
      * eexists _, _. split; [reflexivity | now right].
      * destruct (GithubInfo.Unmarshal data GithubInfo.zero) as [g [e|]]; simpl;
          eexists _, _; (split; [reflexivity | now right]).
    + eexists _, _. split; [reflexivity | now right].
Qed.

(** When the request is sent and no response comes back, the function
    panics instead of returning. *)
Lemma GetGithubInfo_no_response (env : Env) (commitRSA repo : string) (s : Shared) e :
  ParseURL env (Request.URL (github_request env commitRSA repo)) = None ->
  Do env (github_request env commitRSA repo) = DoError e ->
  GetGithubInfo env commitRSA repo s =
  (Panicked nil_dereference, s, [HTTP (github_request env commitRSA repo)]).
Proof.
  intros Hurl Hdo. unfold GetGithubInfo, NewRequest.
  rewrite github_url, basic_token.
  unfold github_request in Hurl. cbn [Request.URL] in Hurl. rewrite Hurl.
  cbn [is_err]. unfold bind, client_Do, emit, ret, Header_Add.
  cbn [Request.Method Request.URL Request.Header Request.Body app].
  fold (github_request env commitRSA repo). rewrite Hdo. reflexivity.
Qed.

(** ** The notifier (PushMessageToChatHangout) *)

(** The three ways the function ends, by what the world answers. *)
Lemma Push_unparsable (env : Env) (msg : string) (s : Shared) e :
  ParseURL env (Getenv env "HANGOUT_URL") = Some e ->
  PushMessageToChatHangout env msg s = (Returned (Some e), s, []).
Proof.
  intros H. unfold PushMessageToChatHangout, NewRequest. simpl. rewrite H.
  reflexivity.
Qed.

Lemma Push_sent (env : Env) (msg : string) (s : Shared) :
  ParseURL env (Getenv env "HANGOUT_URL") = None ->
  PushMessageToChatHangout env msg s =
  match Do env (hangout_request env msg) with
  | DoResponse res =>
      if (Response.StatusCode res =? 200)%Z
      then (Returned None, s,
            [HTTP (hangout_request env msg);
             Log (Sprintln ["A message has been sent to Cloud-build CI Room: "; msg])])
      else (Returned (Some delivery_failed), s, [HTTP (hangout_request env msg)])
  | DoError e => (Returned (Some e), s, [HTTP (hangout_request env msg)])
  | DoRedirectError _ e => (Returned (Some e), s, [HTTP (hangout_request env msg)])
  end.
Proof.
  intros H. unfold PushMessageToChatHangout, NewRequest. simpl. rewrite H. simpl.
  unfold bind, client_Do, emit, ret, Header_Add. simpl.
  fold (hangout_request env msg).
  destruct (Do env (hangout_request env msg)) as [res|e|res e]; simpl; try reflexivity.
  destruct (Response.StatusCode res =? 200)%Z; reflexivity.
Qed.

Lemma Push_frame (env : Env) (msg : string) (s : Shared) :
  exists e t, PushMessageToChatHangout env msg s = (Returned e, s, t).
Proof.
  destruct (ParseURL env (Getenv env "HANGOUT_URL")) as [e|] eqn:H.
  - rewrite (Push_unparsable _ _ _ _ H). eauto.
  - rewrite (Push_sent _ _ _ H).
    destruct (Do env _) as [res|e|res e]; eauto.
    destruct (_ =? _)%Z; eauto.
Qed.

(** ** The formatter (lines 63-93) and the send step (lines 94-100) *)

(** The formatter always returns, leaves [failureStep] alone and emits
    at most the six-minute sleep. *)
Lemma format_frame (c : CloudBuildInfo.t) (g : GithubInfo.t) (s : Shared) :
  exists m t, format c g s =
              (Returned tt, {| failureStep := failureStep s; message := m |}, t)
              /\ (t = [] \/ t = [Sleep 6]).
Proof.
  unfold format.
  destruct (_ || _); [|exists (message s), []; destruct s; auto].
  destruct (_ =? "superset").
  - destruct (_ =? "SUCCESS"); [eexists _, _; split; [reflexivity | now right]|].
    destruct (_ =? "FAILURE"); [eexists _, _; split; [reflexivity | now left]|].
    exists (message s), []. destruct s; auto.
  - destruct (_ =? "ProjectStrand"); [|exists (message s), []; destruct s; auto].
    destruct (_ =? "FAILURE"); [eexists _, _; split; [reflexivity | now left]|].
    exists (message s), []. destruct s; auto.
Qed.

(** Outside the branches [dev] and [master] the formatter does nothing. *)
Lemma format_other_branch (c : CloudBuildInfo.t) (g : GithubInfo.t) (s : Shared) :
  Substitutions.BRANCHNAME (CloudBuildInfo.Substitutions c) <> "dev" ->
  Substitutions.BRANCHNAME (CloudBuildInfo.Substitutions c) <> "master" ->
  format c g s = (Returned tt, s, []).
Proof.
  intros Hdev Hmaster. unfold format.
  apply String.eqb_neq in Hdev, Hmaster. rewrite Hdev, Hmaster. reflexivity.
Qed.

Lemma deliver_empty (env : Env) (s : Shared) :
  message s = "" -> deliver env s = (Returned tt, s, []).
Proof. intros H. unfold deliver, bind, get_message. rewrite H. reflexivity. Qed.

(** The send step always returns and leaves [message] empty. *)
Lemma deliver_frame (env : Env) (s : Shared) :
  exists t, deliver env s =
            (Returned tt, {| failureStep := failureStep s; message := "" |}, t).
Proof.
  destruct (String.eqb_spec (message s) "") as [H|H].
  - rewrite (deliver_empty _ _ H). exists []. destruct s; simpl in *. now subst.
  - unfold deliver, bind at 1, get_message.
    apply String.eqb_neq in H. rewrite H. cbn [negb].
    unfold bind at 1.
    destruct (Push_frame env (message s) s) as (e & t & ->).
    destruct e as [e|]; eexists; reflexivity.
Qed.

(** ** The callback, piece by piece *)

Lemma process_run (env : Env) (c : CloudBuildInfo.t) (s : Shared) :
  let s1 := final (locate (CloudBuildInfo.Steps c) s) in
  let g := GetGithubInfo env
             (Substitutions.COMMITSHA (CloudBuildInfo.Substitutions c))
             (Substitutions.REPONAME (CloudBuildInfo.Substitutions c)) s1 in
  process env c s =
  match outcome g with
  | Panicked reason => (Panicked reason, s1, trace g)
  | Returned r =>
      let f := format c (fst r) s1 in
      let d := deliver env (final f) in
      (Returned tt, final d,
       (trace g ++ log_error (snd r) ++ trace f ++ trace d ++ [Lock; Unlock])%list)
  end.
Proof.
  intros s1 g. unfold process.
  destruct (locate_message (elems (CloudBuildInfo.Steps c)) s) as [v Hv].
  assert (Hloc : locate (CloudBuildInfo.Steps c) s =
                 (Returned tt, {| failureStep := v; message := message s |}, [])).
  { destruct (CloudBuildInfo.Steps c); exact Hv. }
  rewrite (bind_returned _ _ _ _ _ _ Hloc). subst g s1. rewrite Hloc.
  cbn [final fst snd].
  destruct (GetGithubInfo_frame env
              (Substitutions.COMMITSHA (CloudBuildInfo.Substitutions c))
              (Substitutions.REPONAME (CloudBuildInfo.Substitutions c))
              {| failureStep := v; message := message s |}) as (r & t & Hg & _).
  rewrite Hg. destruct r as [r|reason].
  - rewrite (bind_returned _ _ _ _ _ _ Hg). cbn [outcome trace fst snd app].
    destruct (format_frame c (fst r) {| failureStep := v; message := message s |})
      as (m & tf & Hf & _).
    destruct (deliver_frame env (final (format c (fst r)
                {| failureStep := v; message := message s |}))) as (td & Hd).
    assert (Hlog : forall s0, match snd r with
                              | Some e => emit (Log (Sprintln [e]))
                              | None => ret tt
                              end s0 = (Returned tt, s0, log_error (snd r))).
    { intros s0. destruct (snd r); reflexivity. }
    rewrite (bind_returned _ _ _ _ _ _ (Hlog _)).
    rewrite Hf in *. rewrite (bind_returned _ _ _ _ _ _ Hf).
    cbn [final fst snd] in *. rewrite (bind_returned _ _ _ _ _ _ Hd). rewrite Hd.
    reflexivity.
  - rewrite (bind_panicked _ _ _ _ _ _ Hg). reflexivity.
Qed.

Lemma callback_run (env : Env) (msg : Message) (s : Shared) :
  let d := CloudBuildInfo.Unmarshal (Data msg) CloudBuildInfo.zero in
  let p := process env (fst d) s in
  callback env msg s =
  (outcome p, final p, (Ack :: decode_log (snd d) ++ trace p)%list).
Proof.
  intros d p. unfold callback. fold d. destruct d as [c err] eqn:Hd.
  subst p. cbn [fst snd].
  unfold bind at 1. unfold emit at 1.
  unfold bind at 1.
  destruct err as [e|]; simpl;
    destruct (process env c s) as [[r s2] t2]; reflexivity.
Qed.

(** ** C1: the failure locator *)

(** C1 (the code departs from it).  The locator is to return the id of
    the last failed step and nothing when no step failed.  The first
    half is [locate_last_failure]; the second fails once an earlier
    event has set the captured variable: after an event whose step B
    failed, the locator run on the steps [A: SUCCESS] of the next event
    ends with B, not with the empty string. *)
Theorem locate_reports_earlier_event :
  let s := final (callback (answering_env 200)
                    (event "FAILURE" [step "B" "FAILURE"] "superset" "dev" "") initial) in
  reachable s
  /\ Forall (fun x => ~ failed x) [step "A" "SUCCESS"]
  /\ failureStep (final (locate (Some [step "A" "SUCCESS"]) s)) = "B".
Proof.
  intros s. split; [|split].
  - apply reach_callback; [apply reach_initial | reflexivity].
  - repeat constructor. discriminate.
  - reflexivity.
Qed.

(** ** C2: a transport error in the commit enricher *)

(** C2 (the code departs from it).  When the GET to the commit API
    fails in transport, [GetGithubInfo] does not return an error: it
    panics on the nil response, and the panic leaves the callback after
    the acknowledgement and the request, before anything is formatted
    or sent. *)
Theorem transport_error_panics :
  Do unreachable_env (github_request unreachable_env "abc" "superset")
  = DoError "dial tcp: connection refused"
  /\ callback unreachable_env
       (event "SUCCESS" [step "A" "SUCCESS"] "superset" "dev" "") initial
     = (Panicked nil_dereference, initial,
        [Ack; HTTP (github_request unreachable_env "abc" "superset")]).
Proof. split; reflexivity. Qed.

(** ** C3: what persists from one event to the next *)

(** C3 (the code departs from it).  [failureStep] is captured by the
    callback like [message] and, unlike [message], never reset.  An
    event with status FAILURE and no failed step, processed after an
    event whose step B failed, is announced as failed at step B;
    processed alone it is announced with an empty step. *)
Theorem failure_step_persists :
  let env := answering_env 200 in
  let first := event "FAILURE" [step "B" "FAILURE"] "superset" "dev" "" in
  let second := event "FAILURE" [step "A" "SUCCESS"] "ProjectStrand" "master" "" in
  let c := build "FAILURE" [step "A" "SUCCESS"] "ProjectStrand" "master" "" in
  posts (trace (pullMsgs [(env, second)] None))
  = [hangout_request env
       ("Cloud build for *production* has been finished with status *FAILURE* at step **. "
        ++ Sprintf details (detail_args c sample_commit))]
  /\ posts (trace (pullMsgs [(env, first); (env, second)] None))
     = [hangout_request env
          ("The deployment of *actable-dev* on https://dev-nightly.actable.ai has been stopped with status *FAILURE* at step *B*. "
           ++ Sprintf details
                (detail_args (build "FAILURE" [step "B" "FAILURE"] "superset" "dev" "")
                   sample_commit));
        hangout_request env
          ("Cloud build for *production* has been finished with status *FAILURE* at step *B*. "
           ++ Sprintf details (detail_args c sample_commit))].
Proof. split; reflexivity. Qed.

(** ** The message templates, written out *)

Lemma Sprintf_details repo branch msg url an ae cn ce :
  Sprintf details [repo; branch; msg; url; an; ae; cn; ce]
  = detail_text repo branch msg url an ae cn ce.
Proof. reflexivity. Qed.

Lemma Sprintf_superset_success (args : list string) :
  Sprintf superset_success args
  = "The new version of *actable-dev* was available in https://dev-nightly.actable.ai. "
    ++ Sprintf details args.
Proof. reflexivity. Qed.

Lemma Sprintf_superset_failure (status step : string) (args : list string) :
  Sprintf superset_failure (status :: step :: args)
  = "The deployment of *actable-dev* on https://dev-nightly.actable.ai has been stopped with status *"
    ++ status ++ "* at step *" ++ step ++ "*. " ++ Sprintf details args.
Proof. reflexivity. Qed.

Lemma Sprintf_strand_failure (label status step : string) (args : list string) :
  Sprintf strand_failure (label :: status :: step :: args)
  = "Cloud build for *" ++ label ++ "* has been finished with status *"
    ++ status ++ "* at step *" ++ step ++ "*. " ++ Sprintf details args.
Proof. reflexivity. Qed.

(** ** What every run maintains *)

Lemma posts_app (t1 t2 : list effect) : posts (t1 ++ t2)%list = (posts t1 ++ posts t2)%list.
Proof. apply flat_map_app. Qed.

Lemma posts_Ack (t : list effect) : posts (Ack :: t) = posts t.
Proof. reflexivity. Qed.

Lemma posts_log_error (err : option error) : posts (log_error err) = [].
Proof. destruct err; reflexivity. Qed.

Lemma posts_decode_log (err : option error) : posts (decode_log err) = [].
Proof. destruct err; reflexivity. Qed.

Lemma locate_final_message (steps : slice Step.t) (s : Shared) :
  message (final (locate steps s)) = message s.
Proof.
  destruct (locate_message (elems steps) s) as [v Hv].
  assert (H : locate steps s = locate (Some (elems steps)) s) by now destruct steps.
  rewrite H, Hv. reflexivity.
Qed.

(** Each callback that returns leaves [message] empty, so [message] is
    empty whenever a callback starts. *)
Lemma callback_clears_message (env : Env) (msg : Message) (s : Shared) :
  outcome (callback env msg s) = Returned tt ->
  message (final (callback env msg s)) = "".
Proof.
  rewrite callback_run. cbn [outcome final fst snd].
  rewrite process_run. cbv zeta.
  destruct (outcome (GetGithubInfo _ _ _ _)) as [r|reason]; [|discriminate].
  intros _. cbn [final fst snd].
  match goal with |- context [deliver env ?s0] =>
    destruct (deliver_frame env s0) as [t ->] end.
  reflexivity.
Qed.

Lemma reachable_message_empty (s : Shared) : reachable s -> message s = "".
Proof.
  induction 1 as [|s env msg _ _ Hret].
  - reflexivity.
  - apply callback_clears_message. exact Hret.
Qed.

(** ** C4: the formatter for ProjectStrand *)

(** C4, as stated, fails.  A failed ProjectStrand build in namespace
    [test] on a branch other than [dev] and [master] produces no message
    at all: the branch test at line 63 guards the whole switch. *)
Lemma strand_failure_on_other_branch :
  let c := build "FAILURE" [step "unit" "FAILURE"] "ProjectStrand" "feature" "test" in
  Substitutions.REPONAME (CloudBuildInfo.Substitutions c) = "ProjectStrand"
  /\ CloudBuildInfo.Status c = "FAILURE"
  /\ Substitutions.NAMESPACE (CloudBuildInfo.Substitutions c) = "test"
  /\ format c sample_commit {| failureStep := "unit"; message := "" |}
     = (Returned tt, {| failureStep := "unit"; message := "" |}, [])
  /\ posts (trace (callback (answering_env 200)
                     (event "FAILURE" [step "unit" "FAILURE"]
                        "ProjectStrand" "feature" "test") initial)) = [].
Proof. repeat split. Qed.

(** C4, amended.  For a ProjectStrand build on branch [dev] or [master]
    with status FAILURE the formatter sets the message whose build type
    is [unit-testing] in namespace [test] (on either branch), otherwise
    [nightly] on [dev] and [production] on [master]; with any other
    status the formatter does nothing, on every branch. *)
Theorem strand_messages (c : CloudBuildInfo.t) (g : GithubInfo.t) (s : Shared) :
  Substitutions.REPONAME (CloudBuildInfo.Substitutions c) = "ProjectStrand" ->
  (CloudBuildInfo.Status c = "FAILURE" ->
   Substitutions.BRANCHNAME (CloudBuildInfo.Substitutions c) = "dev"
   \/ Substitutions.BRANCHNAME (CloudBuildInfo.Substitutions c) = "master" ->
   forall label,
     Substitutions.NAMESPACE (CloudBuildInfo.Substitutions c) = "test"
       /\ label = "unit-testing"
     \/ Substitutions.NAMESPACE (CloudBuildInfo.Substitutions c) <> "test"
       /\ Substitutions.BRANCHNAME (CloudBuildInfo.Substitutions c) = "dev"
       /\ label = "nightly"
     \/ Substitutions.NAMESPACE (CloudBuildInfo.Substitutions c) <> "test"
       /\ Substitutions.BRANCHNAME (CloudBuildInfo.Substitutions c) = "master"
       /\ label = "production" ->
     format c g s =
     (Returned tt,
      {| failureStep := failureStep s;
         message := "Cloud build for *" ++ label
                    ++ "* has been finished with status *FAILURE* at step *"
                    ++ failureStep s ++ "*. " ++ Sprintf details (detail_args c g) |},
      []))
  /\ (CloudBuildInfo.Status c <> "FAILURE" -> format c g s = (Returned tt, s, [])).
Proof.
  intros Hrepo. split.
  - intros Hstatus Hbranch label Hlabel.
    unfold format, buildType. rewrite Hrepo, Hstatus. cbn [String.eqb Ascii.eqb Bool.eqb].
    assert (Hguard : (Substitutions.BRANCHNAME (CloudBuildInfo.Substitutions c) =? "dev")
                     || (Substitutions.BRANCHNAME (CloudBuildInfo.Substitutions c) =? "master")
                     = true).
    { destruct Hbranch as [-> | ->]; reflexivity. }
    rewrite Hguard. unfold bind, get_failureStep, set_message.
    rewrite Sprintf_strand_failure.
    destruct Hlabel as [[Hns ->] | [(Hns & Hb & ->) | (Hns & Hb & ->)]].
    + rewrite Hns. reflexivity.
    + apply String.eqb_neq in Hns. rewrite Hns, Hb. reflexivity.
    + apply String.eqb_neq in Hns. rewrite Hns, Hb. reflexivity.
  - intros Hstatus. unfold format. rewrite Hrepo.
    apply String.eqb_neq in Hstatus. rewrite Hstatus.
    cbn [String.eqb Ascii.eqb Bool.eqb].
    destruct (_ || _); reflexivity.
Qed.

Lemma strand_messages_witness :
  let c := build "FAILURE" [step "deploy" "FAILURE"] "ProjectStrand" "dev" "staging" in
  format c sample_commit {| failureStep := "deploy"; message := "" |}
  = (Returned tt,
     {| failureStep := "deploy";
        message := "Cloud build for *nightly* has been finished with status *FAILURE* at step *deploy*. "
                   ++ Sprintf details (detail_args c sample_commit) |},
     [])
  /\ format (build "SUCCESS" [] "ProjectStrand" "dev" "staging") sample_commit initial
     = (Returned tt, initial, []).
Proof.
  intros c. split.
  - apply (proj1 (strand_messages c sample_commit
                    {| failureStep := "deploy"; message := "" |} eq_refl)
             eq_refl (or_introl eq_refl) "nightly").
    right; left. repeat split. discriminate.
  - apply (proj2 (strand_messages (build "SUCCESS" [] "ProjectStrand" "dev" "staging")
                    sample_commit initial eq_refl)).
    discriminate.
Defined.

(** ** C5: branches other than dev and master *)

(** C5.  For an event whose branch is neither [dev] nor [master],
    whatever its repository and status, and at whatever point of a run
    it arrives, the formatter does nothing, the callback POSTs nothing
    and [message] stays empty. *)
Theorem other_branch_sends_nothing (env : Env) (msg : Message) (s : Shared) :
  let c := fst (CloudBuildInfo.Unmarshal (Data msg) CloudBuildInfo.zero) in
  Substitutions.BRANCHNAME (CloudBuildInfo.Substitutions c) <> "dev" ->
  Substitutions.BRANCHNAME (CloudBuildInfo.Substitutions c) <> "master" ->
  reachable s ->
  (forall g s', format c g s' = (Returned tt, s', []))
  /\ posts (trace (callback env msg s)) = []
  /\ message (final (callback env msg s)) = "".
Proof.
  intros c Hdev Hmaster Hreach.
  pose proof (reachable_message_empty s Hreach) as Hempty.
  assert (Hformat : forall g s', format c g s' = (Returned tt, s', []))
    by (intros; now apply format_other_branch).
  split; [exact Hformat|].
  rewrite callback_run. fold c. cbn [trace final fst snd].
  rewrite process_run. cbv zeta.
  set (s1 := final (locate (CloudBuildInfo.Steps c) s)).
  assert (Hs1 : message s1 = "")
    by (unfold s1; now rewrite locate_final_message).
  destruct (GetGithubInfo_frame env
              (Substitutions.COMMITSHA (CloudBuildInfo.Substitutions c))
              (Substitutions.REPONAME (CloudBuildInfo.Substitutions c)) s1)
    as (r & t & Hg & Ht).
  rewrite Hg. cbn [outcome trace final fst snd].
  assert (Hposts : posts t = []) by (destruct Ht as [-> | ->]; reflexivity).
  destruct r as [r|reason]; cbn [trace final fst snd].
  - rewrite Hformat. cbn [trace final fst snd].
    rewrite (deliver_empty env s1 Hs1). cbn [trace final fst snd].
    rewrite posts_Ack, !posts_app, posts_decode_log, posts_log_error, Hposts.
    split; [reflexivity | exact Hs1].
  - rewrite posts_Ack, posts_app, posts_decode_log, Hposts.
    split; [reflexivity | exact Hs1].
Qed.

Lemma other_branch_sends_nothing_witness :
  let msg := event "FAILURE" [step "build" "FAILURE"] "superset" "feature" "" in
  posts (trace (callback (answering_env 200) msg initial)) = []
  /\ message (final (callback (answering_env 200) msg initial)) = "".
Proof.
  intros msg.
  apply (other_branch_sends_nothing (answering_env 200) msg initial);
    [discriminate | discriminate | exact reach_initial].
Defined.

(** ** C6: the success message of superset *)

(** Walk a right-nested concatenation up to the piece [head], then cut
    it after the first closing parenthesis. *)
Ltac skip_to head :=
  repeat lazymatch goal with
    | |- contains (head ++ _) _ => fail
    | |- contains (_ ++ _) _ => apply contains_skip
    end.

Ltac closing_paren :=
  lazymatch goal with
  | |- contains ?t _ =>
      lazymatch t with
      | context [")" ++ ?rest] =>
          exists "", rest; rewrite !append_assoc; reflexivity
      end
  end.

(** C6.  For a superset build with status SUCCESS on branch [dev] or
    [master], the formatter sleeps six minutes and sets a message that
    contains [dev-nightly] and the author's and the committer's name and
    email as the enricher returned them. *)
Theorem superset_success_message (c : CloudBuildInfo.t) (g : GithubInfo.t) (s : Shared) :
  Substitutions.REPONAME (CloudBuildInfo.Substitutions c) = "superset" ->
  CloudBuildInfo.Status c = "SUCCESS" ->
  Substitutions.BRANCHNAME (CloudBuildInfo.Substitutions c) = "dev"
  \/ Substitutions.BRANCHNAME (CloudBuildInfo.Substitutions c) = "master" ->
  exists m,
    format c g s = (Returned tt, {| failureStep := failureStep s; message := m |}, [Sleep 6])
    /\ contains m "dev-nightly"
    /\ contains m ("Author: " ++ Person.Name (GithubInfo.Author g)
                   ++ "(" ++ Person.Email (GithubInfo.Author g) ++ ")")
    /\ contains m ("Committer:" ++ Person.Name (GithubInfo.Committer g)
                   ++ "(" ++ Person.Email (GithubInfo.Committer g) ++ ")").
Proof.
  intros Hrepo Hstatus Hbranch.
  exists (Sprintf superset_success (detail_args c g)). split.
  - unfold format. rewrite Hrepo, Hstatus.
    assert (Hguard : (Substitutions.BRANCHNAME (CloudBuildInfo.Substitutions c) =? "dev")
                     || (Substitutions.BRANCHNAME (CloudBuildInfo.Substitutions c) =? "master")
                     = true).
    { destruct Hbranch as [-> | ->]; reflexivity. }
    rewrite Hguard. reflexivity.
  - rewrite Sprintf_superset_success. unfold detail_args.
    rewrite Sprintf_details. unfold detail_text.
    split; [|split].
    + exists "The new version of *actable-dev* was available in https://".
      eexists. reflexivity.
    + skip_to "Author: ". closing_paren.
    + skip_to "Committer:". closing_paren.
Qed.

Lemma superset_success_message_witness :
  exists m,
    format (build "SUCCESS" [] "superset" "master" "") sample_commit initial
    = (Returned tt, {| failureStep := ""; message := m |}, [Sleep 6])
    /\ contains m "dev-nightly"
    /\ contains m "Author: Ann(ann@example.org)"
    /\ contains m "Committer:Bob(bob@example.org)".
Proof.
  apply (superset_success_message (build "SUCCESS" [] "superset" "master" "")
           sample_commit initial);
    [reflexivity | reflexivity | right; reflexivity].
Defined.

(** ** C7: when the notifier fails *)

(** C7, as stated, fails in the only-if direction.  With a webhook URL
    that does not parse, the notifier returns the error of
    [http.NewRequest] without calling the transport at all, in a world
    where every call would be answered 200 without error. *)
Lemma push_fails_without_a_call :
  PushMessageToChatHangout unparsable_env "hello" initial
  = (Returned (Some "missing protocol scheme"), initial, [])
  /\ (forall req, err_of (Do unparsable_env req) = None)
  /\ (forall req res, res_of (Do unparsable_env req) = Some res ->
                      Response.StatusCode res = 200%Z).
Proof.
  split; [reflexivity | split].
  - reflexivity.
  - intros req res H. injection H as <-. reflexivity.
Qed.

(** C7, amended.  The notifier always returns, and returns an error
    exactly when the request cannot be built (the webhook URL does not
    parse), the transport call errors, or the response status is not
    200.  In particular a response with status 500 gives the delivery
    error and a response with status 200 gives success, logged. *)
Theorem push_fails_exactly_when (env : Env) (msg : string) (s : Shared) :
  exists err t,
    PushMessageToChatHangout env msg s = (Returned err, s, t)
    /\ (err <> None <->
        ParseURL env (Getenv env "HANGOUT_URL") <> None
        \/ err_of (Do env (hangout_request env msg)) <> None
        \/ exists res, Do env (hangout_request env msg) = DoResponse res
                       /\ Response.StatusCode res <> 200%Z)
    /\ (forall res,
          ParseURL env (Getenv env "HANGOUT_URL") = None ->
          Do env (hangout_request env msg) = DoResponse res ->
          (Response.StatusCode res = 500%Z -> err = Some delivery_failed)
          /\ (Response.StatusCode res = 200%Z ->
              err = None
              /\ t = [HTTP (hangout_request env msg);
                      Log (Sprintln ["A message has been sent to Cloud-build CI Room: "; msg])])).
Proof.
  destruct (ParseURL env (Getenv env "HANGOUT_URL")) as [e|] eqn:Hurl.
  - rewrite (Push_unparsable _ _ _ _ Hurl). eexists _, _.
    split; [reflexivity | split].
    + split; [intros _; left; discriminate | discriminate].
    + discriminate.
  - rewrite (Push_sent _ _ _ Hurl).
    destruct (Do env (hangout_request env msg)) as [res|e|res e] eqn:Hdo.
    + destruct (Z.eqb_spec (Response.StatusCode res) 200) as [H200|H200];
        eexists _, _; (split; [reflexivity | split]).
      * split; [congruence|].
        intros [H | [H | (res' & Hres & H)]]; simpl in *; congruence.
      * intros res' _ Hres. injection Hres as <-.
        split; [intros H500; rewrite H500 in H200; discriminate | auto].
      * split; [|discriminate].
        intros _. right; right. exists res. auto.
      * intros res' _ Hres. injection Hres as <-.
        split; [reflexivity | contradiction].
    + eexists _, _. split; [reflexivity | split].
      * split; [|discriminate]. intros _. right; left. discriminate.
      * discriminate.
    + eexists _, _. split; [reflexivity | split].
      * split; [|discriminate]. intros _. right; left. discriminate.
      * discriminate.
Qed.

Lemma push_fails_exactly_when_witness :
  exists err,
    outcome (PushMessageToChatHangout (answering_env 500) "hello" initial) = Returned err
    /\ err = Some delivery_failed.
Proof.
  destruct (push_fails_exactly_when (answering_env 500) "hello" initial)
    as (err & t & Hrun & _ & Hcases).
  exists err. split.
  - rewrite Hrun. reflexivity.
  - apply (Hcases _ eq_refl eq_refl). reflexivity.
Defined.

(** ** C8: acknowledgement comes first *)

Lemma GetGithubInfo_never_acks (env : Env) (commitRSA repo : string) :
  emits (fun e => e <> Ack) (GetGithubInfo env commitRSA repo).
Proof.
  intros s. destruct (GetGithubInfo_frame env commitRSA repo s) as (r & t & -> & Ht).
  destruct Ht as [-> | ->]; repeat constructor. discriminate.
Qed.

Lemma Push_never_acks (env : Env) (msg : string) :
  emits (fun e => e <> Ack) (PushMessageToChatHangout env msg).
Proof.
  intros s. destruct (ParseURL env (Getenv env "HANGOUT_URL")) as [e|] eqn:Hurl.
  - rewrite (Push_unparsable _ _ _ _ Hurl). constructor.
  - rewrite (Push_sent _ _ _ Hurl).
    destruct (Do env _) as [res|e|res e]; [destruct (_ =? _)%Z| |];
      repeat constructor; discriminate.
Qed.

Ltac never_acks :=
  repeat first
    [ apply GetGithubInfo_never_acks
    | apply Push_never_acks
    | apply emits_emit; discriminate
    | emits_step ].

Lemma process_never_acks (env : Env) (c : CloudBuildInfo.t) :
  emits (fun e => e <> Ack) (process env c).
Proof. unfold process, locate, format, deliver. never_acks. Qed.

(** C8.  Whatever the message, the world and the captured variables,
    and however the callback ends (return or panic), its first effect
    is the acknowledgement and it acknowledges at no later point:
    decoding and its log line, the GET, the sleep, the POST and the
    lock all come after it and none of them decides it. *)
Theorem ack_comes_first (env : Env) (msg : Message) (s : Shared) :
  exists t, trace (callback env msg s) = Ack :: t /\ ~ In Ack t.
Proof.
  rewrite callback_run. cbn [trace snd]. eexists. split; [reflexivity|].
  intros H. apply in_app_or in H. destruct H as [H|H].
  - destruct (snd _); simpl in H; [destruct H as [H|[]]; discriminate | exact H].
  - pose proof (process_never_acks env
                  (fst (CloudBuildInfo.Unmarshal (Data msg) CloudBuildInfo.zero)) s) as Hp.
    rewrite Forall_forall in Hp. exact (Hp Ack H eq_refl).
Qed.

(** ** C9: a payload that is not JSON *)

(** C9.  When the payload is not valid JSON the callback logs the
    decoder's error and goes on exactly as it processes the zero-valued
    record: the decode error itself ends neither the callback nor the
    receive loop, which moves on to the next message once the callback
    returns. *)
Theorem decode_error_is_not_fatal (env : Env) (e : error) (s : Shared)
  (rest : list (Env * Message)) (stop : option error) :
  let msg := {| Data := Malformed e |} in
  let p := process env CloudBuildInfo.zero s in
  callback env msg s
  = (outcome p, final p,
     Ack :: Log (Sprintf ("Got err: %s" ++ LF) [e]) :: trace p)
  /\ (outcome p = Returned tt ->
      let r := Receive rest stop (final p) in
      Receive ((env, msg) :: rest) stop s
      = (outcome r, final r,
         (Ack :: Log (Sprintf ("Got err: %s" ++ LF) [e]) :: trace p ++ trace r)%list)).
Proof.
  intros msg p.
  assert (Hrun : callback env msg s
                 = (outcome p, final p,
                    Ack :: Log (Sprintf ("Got err: %s" ++ LF) [e]) :: trace p)).
  { rewrite callback_run. reflexivity. }
  split; [exact Hrun|].
  intros Hp r. cbn [Receive]. rewrite Hp in Hrun.
  rewrite (bind_returned _ _ _ _ _ _ Hrun). reflexivity.
Qed.

Lemma decode_error_is_not_fatal_witness :
  let env := answering_env 200 in
  let next := event "FAILURE" [step "test" "FAILURE"] "ProjectStrand" "dev" "test" in
  outcome (process env CloudBuildInfo.zero initial) = Returned tt
  /\ outcome (Receive [(env, {| Data := Malformed "unexpected end of JSON input" |});
                       (env, next)] None initial) = Returned None
  /\ length (posts (trace (Receive [(env, {| Data := Malformed "unexpected end of JSON input" |});
                                    (env, next)] None initial))) = 1%nat.
Proof.
  intros env next.
  destruct (decode_error_is_not_fatal env "unexpected end of JSON input" initial
              [(env, next)] None) as [_ Hloop].
  specialize (Hloop eq_refl). cbv zeta in Hloop.
  split; [reflexivity|]. rewrite Hloop. split; reflexivity.
Defined.

(** ** C10: decoding and re-encoding a build event *)

Lemma index_where_some {A : Type} (p : A -> bool) (l : list A) (i : nat) :
  index_where p l = Some i -> exists x, nth_error l i = Some x /\ p x = true.
Proof.
  revert i. induction l as [|a l IH]; intros i; cbn [index_where]; [discriminate|].
  destruct (p a) eqn:Hp.
  - intros H. injection H as <-. exists a. split; [reflexivity | exact Hp].
  - destruct (index_where p l) as [j|]; [|discriminate].
    intros H. injection H as <-. apply (IH j). reflexivity.
Qed.

(** A key selects only a field whose name it folds to. *)
Lemma field_of_fold (names : list string) (key : string) (i : nat) :
  field_of names key = Some i ->
  exists n, nth_error names i = Some n /\ foldName key = foldName n.
Proof.
  unfold field_of. destruct (index_where (String.eqb key) names) as [j|] eqn:Hexact.
  - intros H. injection H as <-.
    destruct (index_where_some _ _ _ Hexact) as (n & Hn & Heq).
    apply String.eqb_eq in Heq. subst n. exists key. split; [exact Hn | reflexivity].
  - intros H. destruct (index_where_some _ _ _ H) as (n & Hn & Heq).
    apply String.eqb_eq in Heq. exists n. split; assumption.
Qed.

Lemma NoDup_map_In_eq {A B : Type} (f : A -> B) (l : list A) (a b : A) :
  NoDup (map f l) -> In a l -> In b l -> f a = f b -> a = b.
Proof.
  induction l as [|x l IH]; cbn [map]; intros Hnd Ha Hb Hf; [contradiction|].
  inversion Hnd as [|? ? Hx Hl]; subst.
  destruct Ha as [-> | Ha], Hb as [-> | Hb].
  - reflexivity.
  - exfalso. apply Hx. rewrite Hf. now apply in_map.
  - exfalso. apply Hx. rewrite <- Hf. now apply in_map.
  - now apply IH.
Qed.

Lemma member_In (key : string) (members : list (string * json)) (v : json) :
  member key (JObject members) = Some v -> In (key, v) members.
Proof.
  cbn [member]. destruct (find _ members) as [[k v']|] eqn:Hfind; [|discriminate].
  cbn. intros H. injection H as <-.
  apply find_some in Hfind. destruct Hfind as [Hin Hk].
  apply String.eqb_eq in Hk. cbn in Hk. now subst k.
Qed.

Section StructDecoding.
Context {T : Type}.
Variable names : list string.
Variable set : nat -> json -> T -> T * option error.

Lemma unmarshal_members_cons (key : string) (v : json)
  (rest : list (string * json)) (t : T) :
  unmarshal_members names set ((key, v) :: rest) t =
  match field_of names key with
  | Some i =>
      (fst (unmarshal_members names set rest (fst (set i v t))),
       earliest (snd (set i v t))
                (snd (unmarshal_members names set rest (fst (set i v t)))))
  | None => unmarshal_members names set rest t
  end.
Proof.
  cbn [unmarshal_members]. destruct (field_of names key) as [i|]; [|reflexivity].
  destruct (set i v t) as [t1 e1]. cbn [fst snd].
  destruct (unmarshal_members names set rest t1). reflexivity.
Qed.

(** Members whose setters leave an observation alone leave it alone
    together. *)
Lemma members_unobserved {A : Type} (obs : T -> A)
  (members : list (string * json)) (t : T) :
  (forall k v j t', In (k, v) members -> field_of names k = Some j ->
                    obs (fst (set j v t')) = obs t') ->
  obs (fst (unmarshal_members names set members t)) = obs t.
Proof.
  revert t. induction members as [|[k v] rest IH]; intros t H; [reflexivity|].
  rewrite unmarshal_members_cons.
  destruct (field_of names k) as [j|] eqn:Hk; cbn [fst].
  - rewrite IH by (intros; eapply H; [right|]; eassumption).
    eapply H; [left; reflexivity | exact Hk].
  - apply IH. intros; eapply H; [right|]; eassumption.
Qed.

Lemma members_no_error (members : list (string * json)) (t : T) :
  (forall k v j t', In (k, v) members -> field_of names k = Some j ->
                    snd (set j v t') = None) ->
  snd (unmarshal_members names set members t) = None.
Proof.
  revert t. induction members as [|[k v] rest IH]; intros t H; [reflexivity|].
  rewrite unmarshal_members_cons.
  destruct (field_of names k) as [j|] eqn:Hk; cbn [snd].
  - rewrite IH by (intros; eapply H; [right|]; eassumption).
    rewrite (H k v j t (or_introl eq_refl) Hk). reflexivity.
  - apply IH. intros; eapply H; [right|]; eassumption.
Qed.

(** With distinct names, what a field holds after decoding is decided
    by the one member that carries its name. *)
Lemma member_decides {A : Type} (obs : T -> A) (i : nat) (n : string) (v : json)
  (members : list (string * json)) (t : T) :
  NoDup (map (fun kv => foldName (fst kv)) members) ->
  In (n, v) members ->
  nth_error names i = Some n ->
  field_of names n = Some i ->
  (forall j, j <> i -> forall v' t', obs (fst (set j v' t')) = obs t') ->
  (forall t1 t2, obs t1 = obs t2 -> obs (fst (set i v t1)) = obs (fst (set i v t2))) ->
  obs (fst (unmarshal_members names set members t)) = obs (fst (set i v t)).
Proof.
  intros Hnd Hin Hn Hfield Hother Hdep.
  assert (Hsel : forall k j, field_of names k = Some j ->
                             foldName k <> foldName n -> j <> i).
  { intros k j Hk Hfold ->. apply Hfold.
    destruct (field_of_fold _ _ _ Hk) as (m & Hm & ->). congruence. }
  revert t. induction members as [|[k v'] rest IH]; intros t; [contradiction|].
  cbn [map fst] in Hnd. inversion Hnd as [|? ? Hk Hrest]; subst.
  rewrite unmarshal_members_cons. destruct Hin as [Heq | Hin].
  - injection Heq as -> ->. rewrite Hfield. cbn [fst].
    apply members_unobserved. intros k' v'' j t' Hin' Hk'.
    apply Hother. apply (Hsel k' j Hk'). intros Hfold. apply Hk.
    rewrite <- Hfold. apply (in_map (fun kv => foldName (fst kv)) _ _ Hin').
  - assert (Hfold : foldName k <> foldName n).
    { intros Hfold. apply Hk. rewrite Hfold.
      apply (in_map (fun kv => foldName (fst kv)) _ _ Hin). }
    destruct (field_of names k) as [j|] eqn:Hkj; cbn [fst].
    + rewrite (IH Hrest Hin). apply Hdep. apply Hother. exact (Hsel k j Hkj Hfold).
    + apply (IH Hrest Hin).
Qed.

(** With distinct names, a payload that carries a fitting value under
    every field name decodes without error. *)
Lemma members_fit (fits : nat -> json -> Prop)
  (members : list (string * json)) (t : T) :
  NoDup (map (fun kv => foldName (fst kv)) members) ->
  (forall j n, nth_error names j = Some n ->
               exists v, In (n, v) members /\ fits j v) ->
  (forall j v t', fits j v -> snd (set j v t') = None) ->
  snd (unmarshal_members names set members t) = None.
Proof.
  intros Hnd Hall Hfit. apply members_no_error.
  intros k v j t' Hin Hk.
  destruct (field_of_fold _ _ _ Hk) as (n & Hn & Hfold).
  destruct (Hall j n Hn) as (v0 & Hin0 & Hv0).
  assert (Heq : (k, v) = (n, v0))
    by (apply (NoDup_map_In_eq (fun kv => foldName (fst kv)) members); assumption).
  injection Heq as -> ->. apply Hfit. exact Hv0.
Qed.
End StructDecoding.

Lemma names_distinct_object (doc : json) :
  names_distinct doc ->
  exists members, doc = JObject members
                  /\ NoDup (map (fun kv => foldName (fst kv)) members).
Proof. destruct doc; cbn; try contradiction. eauto. Qed.

Ltac setter_case :=
  first [ contradiction
        | reflexivity
        | cbn; repeat match goal with
                 | |- context [let '(_, _) := ?x in _] => destruct x
                 end; reflexivity ].

Ltac other_setter j :=
  do 5 (destruct j as [|j]; [setter_case|]); reflexivity.

(** A well-formed step decodes, into any step value, to its id and
    status. *)
Lemma Step_decodes (v : json) (old : Step.t) :
  well_formed_step v ->
  exists id st,
    member "id" v = Some (JString id)
    /\ member "status" v = Some (JString st)
    /\ Step.unmarshal v old = ({| Step.ID := id; Step.Status := st |}, None).
Proof.
  intros (Hnd & [id Hid] & [st Hst]).
  destruct (names_distinct_object v Hnd) as (members & -> & Hdistinct).
  exists id, st. split; [exact Hid | split; [exact Hst|]].
  unfold Step.unmarshal, unmarshal_struct.
  pose proof (member_In _ _ _ Hid) as Iid. pose proof (member_In _ _ _ Hst) as Ist.
  assert (H0 : Step.ID (fst (unmarshal_members Step.names Step.set members old)) = id).
  { rewrite (member_decides Step.names Step.set Step.ID 0 "id" (JString id)
               members old Hdistinct Iid eq_refl eq_refl); [reflexivity | |].
    - intros j Hj v' t'. other_setter j.
    - reflexivity. }
  assert (H1 : Step.Status (fst (unmarshal_members Step.names Step.set members old)) = st).
  { rewrite (member_decides Step.names Step.set Step.Status 1 "status" (JString st)
               members old Hdistinct Ist eq_refl eq_refl); [reflexivity | |].
    - intros j Hj v' t'. other_setter j.
    - reflexivity. }
  assert (He : snd (unmarshal_members Step.names Step.set members old) = None).
  { apply (members_fit Step.names Step.set (fun _ v => exists s, v = JString s));
      [exact Hdistinct | |].
    - intros j n Hn. destruct j as [|[|[|j]]]; cbn in Hn; try discriminate;
        injection Hn as <-; eauto.
    - intros j v' t' [s ->]. destruct j as [|[|j]]; reflexivity. }
  destruct (unmarshal_members Step.names Step.set members old) as [[i s] e].
  cbn in H0, H1, He. now subst.
Qed.

Lemma Substitutions_decodes (v : json) (old : Substitutions.t) :
  well_formed_substitutions v ->
  exists sha repo branch ns,
    member "COMMIT_SHA" v = Some (JString sha)
    /\ member "REPO_NAME" v = Some (JString repo)
    /\ member "BRANCH_NAME" v = Some (JString branch)
    /\ member "NAMESPACE" v = Some (JString ns)
    /\ Substitutions.unmarshal v old
       = ({| Substitutions.COMMITSHA := sha; Substitutions.REPONAME := repo;
             Substitutions.BRANCHNAME := branch; Substitutions.NAMESPACE := ns |}, None).
Proof.
  intros (Hnd & [sha Hsha] & [repo Hrepo] & [branch Hbranch] & [ns Hns]).
  destruct (names_distinct_object v Hnd) as (members & -> & Hdistinct).
  exists sha, repo, branch, ns. repeat (split; [assumption|]).
  unfold Substitutions.unmarshal, unmarshal_struct.
  pose proof (member_In _ _ _ Hsha) as I0. pose proof (member_In _ _ _ Hrepo) as I1.
  pose proof (member_In _ _ _ Hbranch) as I2. pose proof (member_In _ _ _ Hns) as I3.
  set (r := unmarshal_members Substitutions.names Substitutions.set members old).
  assert (H0 : Substitutions.COMMITSHA (fst r) = sha).
  { unfold r. rewrite (member_decides Substitutions.names Substitutions.set
               Substitutions.COMMITSHA 0 "COMMIT_SHA" (JString sha)
               members old Hdistinct I0 eq_refl eq_refl); [reflexivity | |].
    - intros j Hj v' t'. other_setter j.
    - reflexivity. }
  assert (H1 : Substitutions.REPONAME (fst r) = repo).
  { unfold r. rewrite (member_decides Substitutions.names Substitutions.set
               Substitutions.REPONAME 1 "REPO_NAME" (JString repo)
               members old Hdistinct I1 eq_refl eq_refl); [reflexivity | |].
    - intros j Hj v' t'. other_setter j.
    - reflexivity. }
  assert (H2 : Substitutions.BRANCHNAME (fst r) = branch).
  { unfold r. rewrite (member_decides Substitutions.names Substitutions.set
               Substitutions.BRANCHNAME 2 "BRANCH_NAME" (JString branch)
               members old Hdistinct I2 eq_refl eq_refl); [reflexivity | |].
    - intros j Hj v' t'. other_setter j.
    - reflexivity. }
  assert (H3 : Substitutions.NAMESPACE (fst r) = ns).
  { unfold r. rewrite (member_decides Substitutions.names Substitutions.set
               Substitutions.NAMESPACE 3 "NAMESPACE" (JString ns)
               members old Hdistinct I3 eq_refl eq_refl); [reflexivity | |].
    - intros j Hj v' t'. other_setter j.
    - reflexivity. }
  assert (He : snd r = None).
  { apply (members_fit Substitutions.names Substitutions.set
             (fun _ v => exists s, v = JString s)); [exact Hdistinct | |].
    - intros j n Hn. destruct j as [|[|[|[|[|j]]]]]; cbn in Hn; try discriminate;
        injection Hn as <-; eauto.
    - intros j v' t' [s ->]. destruct j as [|[|[|[|j]]]]; reflexivity. }
  destruct r as [[a b c d] e]. cbn in H0, H1, H2, H3, He. now subst.
Qed.

(** The steps of a well-formed payload decode without error, and each
    decoded step, encoded again, shows the id and status it had. *)
Lemma steps_decode (items : list json) :
  Forall well_formed_step items ->
  let decoded := map (fun item => Step.unmarshal item Step.zero) items in
  fold_right earliest None (map snd decoded) = None
  /\ map step_fields (map Step.marshal (map fst decoded)) = map step_fields items.
Proof.
  induction 1 as [|item items Hitem _ [IHe IHf]]; [split; reflexivity|].
  destruct (Step_decodes item Step.zero Hitem) as (id & st & Hid & Hst & Hdec).
  cbn [map fold_right]. rewrite Hdec. cbn [fst snd earliest]. split; [exact IHe|].
  f_equal; [|exact IHf].
  unfold step_fields. rewrite Hid, Hst. reflexivity.
Qed.

(** C10.  For every payload of the shape the specification gives
    (string status, steps with string id and status, the four string
    substitutions, no name twice; other members allowed), decoding
    succeeds, and the document [json.Marshal] makes of the decoded
    event carries the same status, the same steps (ids and statuses, in
    order) and the same four substitutions as the payload. *)
Theorem decode_encode_preserves (doc : json) :
  well_formed doc ->
  let decoded := CloudBuildInfo.Unmarshal (Encoding doc) CloudBuildInfo.zero in
  snd decoded = None
  /\ exists again,
       CloudBuildInfo.Marshal (fst decoded) = Encoding again
       /\ member "status" again = member "status" doc
       /\ (exists items items',
             member "steps" doc = Some (JArray items)
             /\ member "steps" again = Some (JArray items')
             /\ map step_fields items' = map step_fields items)
       /\ (exists subs subs',
             member "substitutions" doc = Some subs
             /\ member "substitutions" again = Some subs'
             /\ member "COMMIT_SHA" subs' = member "COMMIT_SHA" subs
             /\ member "REPO_NAME" subs' = member "REPO_NAME" subs
             /\ member "BRANCH_NAME" subs' = member "BRANCH_NAME" subs
             /\ member "NAMESPACE" subs' = member "NAMESPACE" subs).
Proof.
  intros (Hnd & [status Hstatus] & (items & Hitems & Hsteps) & (subs & Hsubs & Hwf)).
  destruct (names_distinct_object doc Hnd) as (members & -> & Hdistinct).
  pose proof (member_In _ _ _ Hstatus) as I0.
  pose proof (member_In _ _ _ Hitems) as I1.
  pose proof (member_In _ _ _ Hsubs) as I2.
  destruct (steps_decode items Hsteps) as [Hitems_err Hitems_fields].
  destruct (Substitutions_decodes subs Substitutions.zero Hwf)
    as (sha & repo & branch & ns & Hsha & Hrepo & Hbranch & Hns & Hdec).
  cbn [CloudBuildInfo.Unmarshal]. unfold CloudBuildInfo.unmarshal, unmarshal_struct.
  set (r := unmarshal_members CloudBuildInfo.names CloudBuildInfo.set members
              CloudBuildInfo.zero).
  assert (H0 : CloudBuildInfo.Status (fst r) = status).
  { unfold r. rewrite (member_decides CloudBuildInfo.names CloudBuildInfo.set
               CloudBuildInfo.Status 0 "status" (JString status)
               members _ Hdistinct I0 eq_refl eq_refl); [reflexivity | |].
    - intros j Hj v' t'. other_setter j.
    - reflexivity. }
  assert (H1 : CloudBuildInfo.Steps (fst r)
               = Some (map fst (map (fun item => Step.unmarshal item Step.zero) items))).
  { unfold r. rewrite (member_decides CloudBuildInfo.names CloudBuildInfo.set
               CloudBuildInfo.Steps 1 "steps" (JArray items)
               members _ Hdistinct I1 eq_refl eq_refl); [reflexivity | |].
    - intros j Hj v' t'. other_setter j.
    - reflexivity. }
  assert (H2 : CloudBuildInfo.Substitutions (fst r)
               = {| Substitutions.COMMITSHA := sha; Substitutions.REPONAME := repo;
                    Substitutions.BRANCHNAME := branch;
                    Substitutions.NAMESPACE := ns |}).
  { unfold r. rewrite (member_decides CloudBuildInfo.names CloudBuildInfo.set
               CloudBuildInfo.Substitutions 2 "substitutions" subs
               members _ Hdistinct I2 eq_refl eq_refl).
    - cbn [CloudBuildInfo.set CloudBuildInfo.zero CloudBuildInfo.Substitutions].
      rewrite Hdec. reflexivity.
    - intros j Hj v' t'. other_setter j.
    - intros t1 t2 H12. cbn [CloudBuildInfo.set]. rewrite H12.
      destruct (Substitutions.unmarshal subs (CloudBuildInfo.Substitutions t2)).
      reflexivity. }
  assert (He : snd r = None).
  { apply (members_fit CloudBuildInfo.names CloudBuildInfo.set
             (fun j v => match j with
                         | 0%nat => exists s, v = JString s
                         | 1%nat => exists l, v = JArray l /\ Forall well_formed_step l
                         | _ => well_formed_substitutions v
                         end)); [exact Hdistinct | |].
    - intros j n Hn. destruct j as [|[|[|[|j]]]]; cbn in Hn; try discriminate;
        injection Hn as <-; eauto.
    - intros j v' t' Hfit. destruct j as [|[|j]].
      + destruct Hfit as [s ->]. reflexivity.
      + destruct Hfit as (l & -> & Hl). cbn [CloudBuildInfo.set unmarshal_slice].
        cbn [snd]. apply (steps_decode l Hl).
      + destruct j as [|j]; [|reflexivity]. cbn [CloudBuildInfo.set].
        destruct (Substitutions_decodes v' (CloudBuildInfo.Substitutions t') Hfit)
          as (? & ? & ? & ? & _ & _ & _ & _ & ->).
        reflexivity. }
  cbv zeta. split; [exact He|].
  exists (CloudBuildInfo.marshal (fst r)). split; [reflexivity|].
  unfold CloudBuildInfo.marshal. rewrite H0, H1, H2.
  split; [rewrite Hstatus; reflexivity|]. split.
  - exists items. eexists. split; [exact Hitems|]. split; [reflexivity|].
    exact Hitems_fields.
  - exists subs. eexists. split; [exact Hsubs|]. split; [reflexivity|].
    rewrite Hsha, Hrepo, Hbranch, Hns. repeat split.
Qed.


Ltac distinct_names :=
  unfold names_distinct;
  match goal with
  | |- NoDup ?l => let l' := eval vm_compute in l in change (NoDup l')
  end;
  repeat (constructor; [cbn [In]; intuition discriminate|]); constructor.

Ltac find_string_member := eexists; vm_compute; reflexivity.

Lemma decode_encode_preserves_witness :
  let doc :=
    JObject
      [("id", JString "b-42");
       ("substitutions",
        JObject [("BRANCH_NAME", JString "dev"); ("REPO_NAME", JString "superset");
                 ("COMMIT_SHA", JString "abc"); ("NAMESPACE", JString "")]);
       ("status", JString "FAILURE");
       ("steps", JArray [JObject [("id", JString "build"); ("timing", JNumber "12");
                                  ("status", JString "FAILURE")]])] in
  well_formed doc
  /\ CloudBuildInfo.Unmarshal (Encoding doc) CloudBuildInfo.zero
     = (build "FAILURE" [step "build" "FAILURE"] "superset" "dev" "", None)
  /\ exists again,
       CloudBuildInfo.Marshal
         (fst (CloudBuildInfo.Unmarshal (Encoding doc) CloudBuildInfo.zero))
       = Encoding again
       /\ member "status" again = Some (JString "FAILURE").
Proof.
  intros doc.
  assert (Hwf : well_formed doc).
  { unfold doc. split; [distinct_names|]. split; [find_string_member|]. split.
    - eexists. split; [vm_compute; reflexivity|].
      constructor; [|constructor].
      split; [distinct_names|]. split; find_string_member.
    - eexists. split; [vm_compute; reflexivity|].
      split; [distinct_names|]. repeat split; find_string_member. }
  split; [exact Hwf|]. split; [reflexivity|].
  destruct (decode_encode_preserves doc Hwf) as (_ & again & Hagain & Hstatus & _).
  exists again. split; [exact Hagain | exact Hstatus].
Defined.

(** Outside that shape the round trip can lose a field: a [null] status
    decodes without error and is encoded again as the empty string. *)
Lemma null_status_is_not_preserved :
  let doc := JObject [("status", JNull)] in
  let decoded := CloudBuildInfo.Unmarshal (Encoding doc) CloudBuildInfo.zero in
  snd decoded = None
  /\ member "status" doc = Some JNull
  /\ member "status" (CloudBuildInfo.marshal (fst decoded)) = Some (JString "").
Proof. repeat split. Qed.

(** * Further properties of the code *)

(** ** GetGithubInfo (lines 137-158) *)

Lemma GetGithubInfo_unparsable (env : Env) (commitRSA repo : string) (s : Shared) e :
  ParseURL env (Request.URL (github_request env commitRSA repo)) = Some e ->
  GetGithubInfo env commitRSA repo s = (Returned (GithubInfo.zero, Some e), s, []).
Proof.
  intros Hurl. unfold GetGithubInfo, NewRequest. rewrite github_url.
  unfold github_request in Hurl. cbn [Request.URL] in Hurl. rewrite Hurl.
  reflexivity.
Qed.

Lemma GetGithubInfo_sent (env : Env) (commitRSA repo : string) (s : Shared) :
  ParseURL env (Request.URL (github_request env commitRSA repo)) = None ->
  GetGithubInfo env commitRSA repo s =
  (match res_of (Do env (github_request env commitRSA repo)) with
   | None => Panicked nil_dereference
   | Some res =>
       match Response.Body res with
       | ReadError e => Returned (GithubInfo.zero, Some e)
       | Content data =>
           match snd (GithubInfo.Unmarshal data GithubInfo.zero) with
           | Some e => Returned (GithubInfo.zero, Some e)
           | None => Returned (fst (GithubInfo.Unmarshal data GithubInfo.zero), None)
           end
       end
   end, s, [HTTP (github_request env commitRSA repo)]).
Proof.
  intros Hurl. unfold GetGithubInfo, NewRequest.
  rewrite github_url, basic_token.
  unfold github_request in Hurl. cbn [Request.URL] in Hurl. rewrite Hurl.
  cbn [is_err]. unfold client_Do, Header_Add. unfold bind, emit, ret.
  cbn [Request.Method Request.URL Request.Header Request.Body app].
  fold (github_request env commitRSA repo).
  destruct (res_of (Do env (github_request env commitRSA repo))) as [res|];
    [|reflexivity].
  destruct (Response.Body res) as [e|data]; [reflexivity|].
  destruct (GithubInfo.Unmarshal data GithubInfo.zero) as [g [e|]]; reflexivity.
Qed.

(** X1.  [GetGithubInfo] panics exactly when its request could be built
    and [client.Do] came back without a response; the panic is then the
    nil dereference.  In every other case it returns. *)
Theorem GetGithubInfo_panics_exactly_when
  (env : Env) (commitRSA repo : string) (s : Shared) (reason : string) :
  outcome (GetGithubInfo env commitRSA repo s) = Panicked reason
  <-> reason = nil_dereference
      /\ ParseURL env (Request.URL (github_request env commitRSA repo)) = None
      /\ exists e, Do env (github_request env commitRSA repo) = DoError e.
Proof.
  destruct (ParseURL env (Request.URL (github_request env commitRSA repo)))
    as [e|] eqn:Hurl.
  - rewrite (GetGithubInfo_unparsable _ _ _ _ _ Hurl). cbn [outcome fst].
    split; [discriminate | intros (_ & H & _); discriminate].
  - rewrite (GetGithubInfo_sent _ _ _ _ Hurl). cbn [outcome fst].
    destruct (Do env (github_request env commitRSA repo)) as [res|e|res e];
      cbn [res_of Response.Body].
    + split; [|intros (_ & _ & e & H); discriminate].
      destruct (Response.Body res) as [e|data]; [discriminate|].
      destruct (snd _); discriminate.
    + split.
      * intros H. injection H as <-. repeat split. exists e. reflexivity.
      * intros (-> & _). reflexivity.
    + split; [discriminate | intros (_ & _ & e' & H); discriminate].
Qed.

(** X2.  Whenever [GetGithubInfo] returns an error, the commit data it
    returns with it is the zero value, also when the response body had
    been decoded in part. *)
Theorem GetGithubInfo_error_gives_zero
  (env : Env) (commitRSA repo : string) (s : Shared) (g : GithubInfo.t) (e : error) :
  outcome (GetGithubInfo env commitRSA repo s) = Returned (g, Some e) ->
  g = GithubInfo.zero.
Proof.
  destruct (ParseURL env (Request.URL (github_request env commitRSA repo)))
    as [e'|] eqn:Hurl.
  - rewrite (GetGithubInfo_unparsable _ _ _ _ _ Hurl). cbn [outcome fst].
    intros H. now injection H as <- _.
  - rewrite (GetGithubInfo_sent _ _ _ _ Hurl). cbn [outcome fst].
    destruct (res_of _) as [res|]; [|discriminate].
    destruct (Response.Body res) as [e'|data].
    + intros H. now injection H as <- _.
    + destruct (snd _); intros H; [now injection H as <- _ | discriminate].
Qed.

Lemma GetGithubInfo_error_gives_zero_witness :
  fst (GithubInfo.Unmarshal
         (Encoding (JObject [("message", JString "fix build"); ("html_url", JNumber "5")]))
         GithubInfo.zero)
  <> GithubInfo.zero
  /\ outcome (GetGithubInfo mistyped_env "abc" "superset" initial)
     = Returned (GithubInfo.zero,
                 Some (UnmarshalTypeError (JNumber "5") "string")).
Proof.
  split; [discriminate|].
  assert (H : exists g e, outcome (GetGithubInfo mistyped_env "abc" "superset" initial)
                          = Returned (g, Some e)
                          /\ e = UnmarshalTypeError (JNumber "5") "string").
  { eexists _, _. split; reflexivity. }
  destruct H as (g & e & Hrun & ->).
  rewrite Hrun.
  rewrite (GetGithubInfo_error_gives_zero mistyped_env "abc" "superset" initial g _ Hrun).
  reflexivity.
Defined.

(** X3.  [GetGithubInfo] never looks at the status code: whenever the
    response body is a document that decodes without error, the decoded
    value is returned with a nil error, after exactly the one GET and
    with the captured variables untouched. *)
Theorem GetGithubInfo_ignores_status
  (env : Env) (commitRSA repo : string) (s : Shared)
  (res : Response.t) (doc : json) (g : GithubInfo.t) :
  ParseURL env (Request.URL (github_request env commitRSA repo)) = None ->
  Do env (github_request env commitRSA repo) = DoResponse res ->
  Response.Body res = Content (Encoding doc) ->
  GithubInfo.unmarshal doc GithubInfo.zero = (g, None) ->
  GetGithubInfo env commitRSA repo s
  = (Returned (g, None), s, [HTTP (github_request env commitRSA repo)]).
Proof.
  intros Hurl Hdo Hbody Hdoc.
  rewrite (GetGithubInfo_sent _ _ _ _ Hurl), Hdo. cbn [res_of].
  rewrite Hbody. cbn [GithubInfo.Unmarshal]. rewrite Hdoc. reflexivity.
Qed.

Lemma GetGithubInfo_ignores_status_witness :
  Response.StatusCode
    {| Response.StatusCode := 404;
       Response.Body := Content (Encoding (JObject [("message", JString "Not Found")])) |}
  = 404%Z
  /\ outcome (GetGithubInfo not_found_env "abc" "superset" initial)
     = Returned ({| GithubInfo.Message := "Not Found"; GithubInfo.HTML_URL := "";
                    GithubInfo.Author := Person.zero;
                    GithubInfo.Committer := Person.zero |}, None).
Proof.
  split; [reflexivity|].
  rewrite (GetGithubInfo_ignores_status not_found_env "abc" "superset" initial
             _ _ _ eq_refl eq_refl eq_refl eq_refl).
  reflexivity.
Defined.

(** X4.  [GetGithubInfo] sends at most one request and never writes the
    captured variables: nothing when the URL does not parse (the parse
    error is returned), otherwise exactly the GET of
    [/repos/trunghlt/<repo>/git/commits/<sha>] with the [Basic] token of
    [GITHUB_TOKEN] and no body. *)
Theorem GetGithubInfo_request (env : Env) (commitRSA repo : string) (s : Shared) :
  let url := "https://api.github.com/repos/trunghlt/" ++ repo
             ++ "/git/commits/" ++ commitRSA in
  final (GetGithubInfo env commitRSA repo s) = s
  /\ match ParseURL env url with
     | Some e =>
         outcome (GetGithubInfo env commitRSA repo s) = Returned (GithubInfo.zero, Some e)
         /\ trace (GetGithubInfo env commitRSA repo s) = []
     | None =>
         trace (GetGithubInfo env commitRSA repo s)
         = [HTTP {| Request.Method := "GET"; Request.URL := url;
                    Request.Header :=
                      [("Authorization", "Basic " ++ Getenv env "GITHUB_TOKEN")];
                    Request.Body := None |}]
     end.
Proof.
  intros url.
  destruct (ParseURL env url) as [e|] eqn:Hurl.
  - rewrite (GetGithubInfo_unparsable env commitRSA repo s e Hurl). repeat split.
  - rewrite (GetGithubInfo_sent env commitRSA repo s Hurl). repeat split.
Qed.

(** ** PushMessageToChatHangout (lines 110-135) and the send step *)

(** X5.  [PushMessageToChatHangout] always returns and leaves the
    captured variables alone.  It sends nothing when the webhook URL
    does not parse and otherwise exactly one request, the POST of
    [{text: msg}] with content type [application/json]; and it writes
    its log line exactly when it returns a nil error. *)
Theorem Push_trace (env : Env) (msg : string) (s : Shared) :
  exists err,
    PushMessageToChatHangout env msg s
    = (Returned err, s,
       (match ParseURL env (Getenv env "HANGOUT_URL") with
        | Some _ => []
        | None =>
            [HTTP {| Request.Method := "POST";
                     Request.URL := Getenv env "HANGOUT_URL";
                     Request.Header := [("Content-Type", "application/json")];
                     Request.Body := Some (Encoding (JObject [("text", JString msg)])) |}]
        end
        ++ match err with
           | None => [Log (Sprintln ["A message has been sent to Cloud-build CI Room: "; msg])]
           | Some _ => []
           end)%list).
Proof.
  destruct (ParseURL env (Getenv env "HANGOUT_URL")) as [e|] eqn:Hurl.
  - rewrite (Push_unparsable _ _ _ _ Hurl). exists (Some e). reflexivity.
  - rewrite (Push_sent _ _ _ Hurl). fold (hangout_request env msg).
    destruct (Do env (hangout_request env msg)) as [res|e|res e].
    + destruct (Response.StatusCode res =? 200)%Z;
        [exists None | exists (Some delivery_failed)]; reflexivity.
    + exists (Some e). reflexivity.
    + exists (Some e). reflexivity.
Qed.

Lemma deliver_nonempty (env : Env) (s : Shared) :
  message s <> "" ->
  exists line,
    deliver env s
    = (Returned tt, {| failureStep := failureStep s; message := "" |},
       (match ParseURL env (Getenv env "HANGOUT_URL") with
        | Some _ => []
        | None => [HTTP (hangout_request env (message s))]
        end ++ [Log line])%list).
Proof.
  intros Hmsg. unfold deliver, bind at 1, get_message.
  apply String.eqb_neq in Hmsg. rewrite Hmsg. cbn [negb].
  unfold bind at 1.
  destruct (ParseURL env (Getenv env "HANGOUT_URL")) as [e|] eqn:Hurl.
  - rewrite (Push_unparsable _ _ _ _ Hurl). eexists. reflexivity.
  - rewrite (Push_sent _ _ _ Hurl).
    destruct (Do env (hangout_request env (message s))) as [res|e|res e].
    + destruct (Response.StatusCode res =? 200)%Z; eexists; reflexivity.
    + eexists. reflexivity.
    + eexists. reflexivity.
Qed.

(** X6.  The send step (lines 94-100) does nothing while [message] is
    empty.  With a non-empty [message] it always returns with [message]
    cleared, makes at most the one POST carrying that message, and
    leaves exactly one log line: the success notice when the webhook
    answers 200, otherwise the error, be it the URL parse error, the
    transport error or the delivery error.  A failed delivery is logged
    and dropped, never retried. *)
Theorem deliver_sends_once (env : Env) (s : Shared) :
  (message s = "" -> deliver env s = (Returned tt, s, []))
  /\ (message s <> "" ->
      deliver env s
      = (Returned tt, {| failureStep := failureStep s; message := "" |},
         match ParseURL env (Getenv env "HANGOUT_URL") with
         | Some e => [Log (Sprintln [e])]
         | None =>
             HTTP (hangout_request env (message s))
             :: match Do env (hangout_request env (message s)) with
                | DoResponse res =>
                    if (Response.StatusCode res =? 200)%Z
                    then [Log (Sprintln ["A message has been sent to Cloud-build CI Room: ";
                                         message s])]
                    else [Log (Sprintln [delivery_failed])]
                | DoError e => [Log (Sprintln [e])]
                | DoRedirectError _ e => [Log (Sprintln [e])]
                end
         end)).
Proof.
  split; [apply deliver_empty|].
  intros Hmsg. unfold deliver, bind at 1, get_message.
  apply String.eqb_neq in Hmsg. rewrite Hmsg. cbn [negb].
  unfold bind at 1.
  destruct (ParseURL env (Getenv env "HANGOUT_URL")) as [e|] eqn:Hurl.
  - rewrite (Push_unparsable _ _ _ _ Hurl). reflexivity.
  - rewrite (Push_sent _ _ _ Hurl).
    destruct (Do env (hangout_request env (message s))) as [res|e|res e];
      [destruct (Response.StatusCode res =? 200)%Z| |]; reflexivity.
Qed.

Lemma deliver_sends_once_witness :
  deliver (answering_env 200) initial = (Returned tt, initial, [])
  /\ deliver (answering_env 500) {| failureStep := ""; message := "hello" |}
     = (Returned tt, initial,
        [HTTP (hangout_request (answering_env 500) "hello");
         Log (Sprintln [delivery_failed])]).
Proof.
  split.
  - apply (proj1 (deliver_sends_once (answering_env 200) initial)). reflexivity.
  - apply (proj2 (deliver_sends_once (answering_env 500)
                    {| failureStep := ""; message := "hello" |})).
    discriminate.
Defined.

(** ** The formatter (lines 63-93) *)

Lemma branch_guard (branch : string) :
  branch = "dev" \/ branch = "master" ->
  (branch =? "dev") || (branch =? "master") = true.
Proof. intros [-> | ->]; reflexivity. Qed.

Lemma branch_guard_false (branch : string) :
  ~ (branch = "dev" \/ branch = "master") ->
  (branch =? "dev") || (branch =? "master") = false.
Proof.
  intros H. destruct (String.eqb_spec branch "dev"); [tauto|].
  destruct (String.eqb_spec branch "master"); [tauto | reflexivity].
Qed.

(** What the formatter assigns in each of its three producing cases. *)
Lemma format_notifying (c : CloudBuildInfo.t) (g : GithubInfo.t) (s : Shared) :
  notifies c ->
  exists head t,
    format c g s
    = (Returned tt,
       {| failureStep := failureStep s;
          message := head ++ Sprintf details (detail_args c g) |}, t)
    /\ head <> "".
Proof.
  unfold notifies. intros [Hbranch Hcase]. unfold format.
  rewrite (branch_guard _ Hbranch).
  destruct Hcase as [[Hrepo [Hst | Hst]] | [Hrepo Hst]]; rewrite Hrepo, Hst;
    cbn [String.eqb Ascii.eqb Bool.eqb].
  - unfold bind, emit, set_message. rewrite Sprintf_superset_success.
    eexists _, _. split; [reflexivity | discriminate].
  - unfold bind, get_failureStep, set_message. rewrite Sprintf_superset_failure.
    eexists ("The deployment of *actable-dev* on https://dev-nightly.actable.ai has been stopped with status *"
             ++ "FAILURE" ++ "* at step *" ++ failureStep s ++ "*. "), _.
    split; [|discriminate]. rewrite !append_assoc. reflexivity.
  - unfold bind, get_failureStep, set_message. rewrite Sprintf_strand_failure.
    eexists ("Cloud build for *" ++ buildType c ++ "* has been finished with status *"
             ++ "FAILURE" ++ "* at step *" ++ failureStep s ++ "*. "), _.
    split; [|discriminate]. rewrite !append_assoc. reflexivity.
Qed.

Lemma format_silent (c : CloudBuildInfo.t) (g : GithubInfo.t) (s : Shared) :
  ~ notifies c -> format c g s = (Returned tt, s, []).
Proof.
  unfold notifies. intros H. unfold format.
  destruct (String.eqb_spec
              (Substitutions.BRANCHNAME (CloudBuildInfo.Substitutions c)) "dev"),
           (String.eqb_spec
              (Substitutions.BRANCHNAME (CloudBuildInfo.Substitutions c)) "master");
    cbn [orb]; try reflexivity;
    (destruct (String.eqb_spec
                 (Substitutions.REPONAME (CloudBuildInfo.Substitutions c)) "superset")
       as [Hrepo|Hrepo];
     [ destruct (String.eqb_spec (CloudBuildInfo.Status c) "SUCCESS");
       [exfalso; apply H; tauto|];
       destruct (String.eqb_spec (CloudBuildInfo.Status c) "FAILURE");
       [exfalso; apply H; tauto | reflexivity]
     | destruct (String.eqb_spec
                   (Substitutions.REPONAME (CloudBuildInfo.Substitutions c))
                   "ProjectStrand");
       [|reflexivity];
       destruct (String.eqb_spec (CloudBuildInfo.Status c) "FAILURE");
       [exfalso; apply H; tauto | reflexivity] ]).
Qed.

(** X7.  The formatter assigns a message, and a non-empty one, exactly
    for superset builds with status SUCCESS or FAILURE and ProjectStrand
    builds with status FAILURE, on branch [dev] or [master]; for every
    other repository, status or branch it changes nothing and emits
    nothing. *)
Theorem format_notifies_exactly_when
  (c : CloudBuildInfo.t) (g : GithubInfo.t) (s : Shared) :
  (notifies c -> message (final (format c g s)) <> "")
  /\ (~ notifies c -> format c g s = (Returned tt, s, [])).
Proof.
  split; [|apply format_silent].
  intros H. destruct (format_notifying c g s H) as (head & t & -> & Hhead).
  cbn [final fst snd message]. destruct head; [contradiction | discriminate].
Qed.

Lemma format_notifies_exactly_when_witness :
  message (final (format (build "FAILURE" [] "superset" "dev" "") sample_commit initial))
  <> ""
  /\ format (build "TIMEOUT" [] "superset" "dev" "") sample_commit initial
     = (Returned tt, initial, [])
  /\ format (build "FAILURE" [] "frontend" "master" "") sample_commit initial
     = (Returned tt, initial, []).
Proof.
  split; [|split].
  - apply (proj1 (format_notifies_exactly_when
                    (build "FAILURE" [] "superset" "dev" "") sample_commit initial)).
    split; [left; reflexivity | left; split; [reflexivity | right; reflexivity]].
  - apply (proj2 (format_notifies_exactly_when
                    (build "TIMEOUT" [] "superset" "dev" "") sample_commit initial)).
    intros [_ [[_ [H | H]] | [H _]]]; discriminate.
  - apply (proj2 (format_notifies_exactly_when
                    (build "FAILURE" [] "frontend" "master" "") sample_commit initial)).
    intros [_ [[H _] | [H _]]]; discriminate.
Defined.

(** X8.  The formatter sleeps, for six minutes and once, exactly for a
    superset build with status SUCCESS on branch [dev] or [master]; in
    every other case it emits nothing at all. *)
Theorem format_sleeps_exactly_when
  (c : CloudBuildInfo.t) (g : GithubInfo.t) (s : Shared) :
  let slow :=
    (Substitutions.BRANCHNAME (CloudBuildInfo.Substitutions c) = "dev"
     \/ Substitutions.BRANCHNAME (CloudBuildInfo.Substitutions c) = "master")
    /\ Substitutions.REPONAME (CloudBuildInfo.Substitutions c) = "superset"
    /\ CloudBuildInfo.Status c = "SUCCESS" in
  (slow -> trace (format c g s) = [Sleep 6])
  /\ (~ slow -> trace (format c g s) = []).
Proof.
  intros slow. subst slow. split.
  - intros (Hbranch & Hrepo & Hst). unfold format.
    rewrite (branch_guard _ Hbranch), Hrepo, Hst. reflexivity.
  - intros H. unfold format.
    destruct (String.eqb_spec
                (Substitutions.BRANCHNAME (CloudBuildInfo.Substitutions c)) "dev"),
             (String.eqb_spec
                (Substitutions.BRANCHNAME (CloudBuildInfo.Substitutions c)) "master");
      cbn [orb]; try reflexivity;
      (destruct (String.eqb_spec
                   (Substitutions.REPONAME (CloudBuildInfo.Substitutions c)) "superset");
       [ destruct (String.eqb_spec (CloudBuildInfo.Status c) "SUCCESS");
         [exfalso; apply H; tauto|];
         destruct (CloudBuildInfo.Status c =? "FAILURE"); reflexivity
       | destruct (_ =? "ProjectStrand"); [|reflexivity];
         destruct (CloudBuildInfo.Status c =? "FAILURE"); reflexivity ]).
Qed.

Lemma format_sleeps_exactly_when_witness :
  trace (format (build "SUCCESS" [] "superset" "dev" "") sample_commit initial) = [Sleep 6]
  /\ trace (format (build "SUCCESS" [] "ProjectStrand" "dev" "") sample_commit initial) = [].
Proof.
  split.
  - apply (proj1 (format_sleeps_exactly_when
                    (build "SUCCESS" [] "superset" "dev" "") sample_commit initial)).
    split; [left; reflexivity | split; reflexivity].
  - apply (proj2 (format_sleeps_exactly_when
                    (build "SUCCESS" [] "ProjectStrand" "dev" "") sample_commit initial)).
    intros (_ & H & _). discriminate.
Defined.

Lemma superset_failure_message_of
  (c : CloudBuildInfo.t) (g : GithubInfo.t) (s : Shared) :
  Substitutions.REPONAME (CloudBuildInfo.Substitutions c) = "superset" ->
  CloudBuildInfo.Status c = "FAILURE" ->
  Substitutions.BRANCHNAME (CloudBuildInfo.Substitutions c) = "dev"
  \/ Substitutions.BRANCHNAME (CloudBuildInfo.Substitutions c) = "master" ->
  format c g s
  = (Returned tt,
     {| failureStep := failureStep s;
        message :=
          "The deployment of *actable-dev* on https://dev-nightly.actable.ai has been stopped with status *FAILURE* at step *"
          ++ failureStep s ++ "*. " ++ Sprintf details (detail_args c g) |},
     []).
Proof.
  intros Hrepo Hst Hbranch. unfold format.
  rewrite (branch_guard _ Hbranch), Hrepo, Hst.
  cbn [String.eqb Ascii.eqb Bool.eqb].
  unfold bind, get_failureStep, set_message.
  rewrite Sprintf_superset_failure. reflexivity.
Qed.

(** X9.  For a superset build with status FAILURE on branch [dev] or
    [master] the formatter, without sleeping, sets the message that
    names the status and the step held in [failureStep], followed by the
    commit details. *)
Theorem superset_failure_message
  (c : CloudBuildInfo.t) (g : GithubInfo.t) (s : Shared) :
  Substitutions.REPONAME (CloudBuildInfo.Substitutions c) = "superset" ->
  CloudBuildInfo.Status c = "FAILURE" ->
  Substitutions.BRANCHNAME (CloudBuildInfo.Substitutions c) = "dev"
  \/ Substitutions.BRANCHNAME (CloudBuildInfo.Substitutions c) = "master" ->
  format c g s
  = (Returned tt,
     {| failureStep := failureStep s;
        message :=
          "The deployment of *actable-dev* on https://dev-nightly.actable.ai has been stopped with status *FAILURE* at step *"
          ++ failureStep s ++ "*. " ++ Sprintf details (detail_args c g) |},
     []).
Proof. apply superset_failure_message_of. Qed.

Lemma superset_failure_message_witness :
  let c := build "FAILURE" [step "lint" "FAILURE"] "superset" "master" "" in
  message (final (format c sample_commit {| failureStep := "lint"; message := "" |}))
  = "The deployment of *actable-dev* on https://dev-nightly.actable.ai has been stopped with status *FAILURE* at step *lint*. "
    ++ Sprintf details (detail_args c sample_commit).
Proof.
  intros c.
  rewrite (superset_failure_message c sample_commit
             {| failureStep := "lint"; message := "" |} eq_refl eq_refl
             (or_intror eq_refl)).
  reflexivity.
Defined.

Lemma contains_refl (t : string) : contains t t.
Proof. exists "", "". now rewrite append_nil_r. Qed.

(** X10.  Every message the formatter produces, whichever of the three
    templates it comes from, contains the details block with the
    repository, the branch, the commit message and URL, and the author's
    and committer's name and email, as given. *)
Theorem produced_message_embeds_details
  (c : CloudBuildInfo.t) (g : GithubInfo.t) (s : Shared) :
  notifies c ->
  contains (message (final (format c g s)))
    (detail_text (Substitutions.REPONAME (CloudBuildInfo.Substitutions c))
       (Substitutions.BRANCHNAME (CloudBuildInfo.Substitutions c))
       (GithubInfo.Message g) (GithubInfo.HTML_URL g)
       (Person.Name (GithubInfo.Author g)) (Person.Email (GithubInfo.Author g))
       (Person.Name (GithubInfo.Committer g)) (Person.Email (GithubInfo.Committer g))).
Proof.
  intros H. destruct (format_notifying c g s H) as (head & t & -> & _).
  cbn [final fst snd message]. unfold detail_args. rewrite Sprintf_details.
  apply contains_skip, contains_refl.
Qed.

Lemma produced_message_embeds_details_witness :
  let c := build "FAILURE" [] "ProjectStrand" "master" "test" in
  contains (message (final (format c sample_commit initial)))
    (detail_text "ProjectStrand" "master" "fix build" "https://example.org/c/abc"
       "Ann" "ann@example.org" "Bob" "bob@example.org").
Proof.
  intros c.
  apply (produced_message_embeds_details c sample_commit initial).
  split; [right; reflexivity | right; split; reflexivity].
Defined.

(** ** The callback as a whole (lines 47-103) *)

Lemma callback_pieces (env : Env) (msg : Message) (s : Shared) :
  let d := CloudBuildInfo.Unmarshal (Data msg) CloudBuildInfo.zero in
  let c := fst d in
  let s1 := final (locate (CloudBuildInfo.Steps c) s) in
  let g := GetGithubInfo env
             (Substitutions.COMMITSHA (CloudBuildInfo.Substitutions c))
             (Substitutions.REPONAME (CloudBuildInfo.Substitutions c)) s1 in
  callback env msg s =
  match outcome g with
  | Panicked reason =>
      (Panicked reason, s1, (Ack :: decode_log (snd d) ++ trace g)%list)
  | Returned r =>
      let f := format c (fst r) s1 in
      let dl := deliver env (final f) in
      (Returned tt, final dl,
       (Ack :: decode_log (snd d) ++ trace g ++ log_error (snd r) ++ trace f
            ++ trace dl ++ [Lock; Unlock])%list)
  end.
Proof.
  intros d c s1 g. rewrite callback_run. fold d. fold c.
  rewrite process_run. fold s1. fold g.
  destruct (outcome g); reflexivity.
Qed.

Lemma posts_GetGithubInfo (env : Env) (commitRSA repo : string) (s : Shared) :
  posts (trace (GetGithubInfo env commitRSA repo s)) = [].
Proof.
  destruct (GetGithubInfo_frame env commitRSA repo s) as (r & t & -> & [-> | ->]);
    reflexivity.
Qed.

Lemma posts_format (c : CloudBuildInfo.t) (g : GithubInfo.t) (s : Shared) :
  posts (trace (format c g s)) = [].
Proof.
  destruct (format_frame c g s) as (m & t & -> & [-> | ->]); reflexivity.
Qed.

Lemma posts_deliver (env : Env) (s : Shared) :
  posts (trace (deliver env s))
  = if message s =? "" then []
    else match ParseURL env (Getenv env "HANGOUT_URL") with
         | Some _ => []
         | None => [hangout_request env (message s)]
         end.
Proof.
  destruct (String.eqb_spec (message s) "") as [H|H].
  - rewrite (deliver_empty env s H). reflexivity.
  - destruct (deliver_nonempty env s H) as [line ->]. cbn [trace snd].
    rewrite posts_app. destruct (ParseURL env _); reflexivity.
Qed.

Lemma callback_posts (env : Env) (msg : Message) (s : Shared) :
  let c := fst (CloudBuildInfo.Unmarshal (Data msg) CloudBuildInfo.zero) in
  let s1 := final (locate (CloudBuildInfo.Steps c) s) in
  let g := GetGithubInfo env
             (Substitutions.COMMITSHA (CloudBuildInfo.Substitutions c))
             (Substitutions.REPONAME (CloudBuildInfo.Substitutions c)) s1 in
  posts (trace (callback env msg s)) =
  match outcome g with
  | Panicked _ => []
  | Returned r => posts (trace (deliver env (final (format c (fst r) s1))))
  end.
Proof.
  intros c s1 g. rewrite callback_pieces. fold c. fold s1. fold g.
  destruct (outcome g) as [r|reason]; cbn [trace snd].
  - rewrite posts_Ack, !posts_app, posts_decode_log, posts_log_error, posts_format.
    unfold g. rewrite posts_GetGithubInfo. cbn [app].
    rewrite app_nil_r. reflexivity.
  - rewrite posts_Ack, posts_app, posts_decode_log.
    unfold g. rewrite posts_GetGithubInfo. reflexivity.
Qed.

(** X11.  One invocation of the callback POSTs at most once, whatever the
    message, the world and the captured variables: no path sends twice
    or retries. *)
Theorem callback_posts_at_most_once (env : Env) (msg : Message) (s : Shared) :
  (length (posts (trace (callback env msg s))) <= 1)%nat.
Proof.
  rewrite callback_posts. cbv zeta.
  destruct (outcome _) as [r|reason]; [|simpl; lia].
  rewrite posts_deliver.
  destruct (_ =? ""); [simpl; lia|].
  destruct (ParseURL env _); simpl; lia.
Qed.

(** X12.  The callback panics exactly when the commit request could be
    built and got no response, and then with the nil dereference;
    nothing else in it can panic, in particular neither a payload that
    does not decode nor a delivery that fails. *)
Theorem callback_panics_exactly_when
  (env : Env) (msg : Message) (s : Shared) (reason : string) :
  let c := fst (CloudBuildInfo.Unmarshal (Data msg) CloudBuildInfo.zero) in
  let req := github_request env
               (Substitutions.COMMITSHA (CloudBuildInfo.Substitutions c))
               (Substitutions.REPONAME (CloudBuildInfo.Substitutions c)) in
  outcome (callback env msg s) = Panicked reason
  <-> reason = nil_dereference
      /\ ParseURL env (Request.URL req) = None
      /\ exists e, Do env req = DoError e.
Proof.
  intros c req. rewrite callback_pieces. fold c.
  set (s1 := final (locate (CloudBuildInfo.Steps c) s)).
  destruct (ParseURL env (Request.URL req)) as [e|] eqn:Hurl.
  - unfold req in Hurl. rewrite (GetGithubInfo_unparsable _ _ _ _ _ Hurl).
    cbn [outcome fst]. split; [discriminate | intros (_ & H & _); discriminate].
  - unfold req in Hurl. rewrite (GetGithubInfo_sent _ _ _ _ Hurl).
    fold req. cbn [outcome fst].
    destruct (Do env req) as [res|e|res e]; cbn [res_of Response.Body].
    + split; [|intros (_ & _ & e & H); discriminate].
      destruct (Response.Body res) as [e|data]; [discriminate|].
      destruct (snd _); discriminate.
    + split.
      * intros H. injection H as <-. repeat split. exists e. reflexivity.
      * intros (-> & _). reflexivity.
    + split; [discriminate | intros (_ & _ & e' & H); discriminate].
Qed.

(** X13.  The commit request is made for every message whose URL can be
    built, right after the acknowledgement and the decoder's log line
    and before the branch, repository and status are looked at: also for
    events that will produce no notification. *)
Theorem callback_always_enriches (env : Env) (msg : Message) (s : Shared) :
  let d := CloudBuildInfo.Unmarshal (Data msg) CloudBuildInfo.zero in
  let req := github_request env
               (Substitutions.COMMITSHA (CloudBuildInfo.Substitutions (fst d)))
               (Substitutions.REPONAME (CloudBuildInfo.Substitutions (fst d))) in
  ParseURL env (Request.URL req) = None ->
  exists rest,
    trace (callback env msg s) = (Ack :: decode_log (snd d) ++ HTTP req :: rest)%list.
Proof.
  intros d req Hurl. rewrite callback_pieces. fold d.
  unfold req in Hurl. rewrite (GetGithubInfo_sent _ _ _ _ Hurl). fold req.
  cbn [outcome trace fst snd].
  destruct (res_of (Do env req)) as [res|]; [|eexists; reflexivity].
  destruct (Response.Body res) as [e|data]; [eexists; reflexivity|].
  destruct (snd (GithubInfo.Unmarshal data GithubInfo.zero));
    eexists; reflexivity.
Qed.

Lemma callback_always_enriches_witness :
  let msg := event "SUCCESS" [] "docs" "feature" "" in
  exists rest,
    trace (callback (answering_env 200) msg initial)
    = Ack :: HTTP (github_request (answering_env 200) "abc" "docs") :: rest
    /\ posts (trace (callback (answering_env 200) msg initial)) = [].
Proof.
  intros msg.
  destruct (callback_always_enriches (answering_env 200) msg initial eq_refl)
    as [rest Hrest].
  exists rest. split; [exact Hrest | reflexivity].
Defined.

Lemma unlocked_GetGithubInfo (env : Env) (commitRSA repo : string) (s : Shared) :
  Forall (fun e => e <> Lock /\ e <> Unlock)
         (trace (GetGithubInfo env commitRSA repo s)).
Proof.
  destruct (GetGithubInfo_frame env commitRSA repo s) as (r & t & -> & [-> | ->]);
    repeat constructor; discriminate.
Qed.

Lemma unlocked_format (c : CloudBuildInfo.t) (g : GithubInfo.t) (s : Shared) :
  Forall (fun e => e <> Lock /\ e <> Unlock) (trace (format c g s)).
Proof.
  destruct (format_frame c g s) as (m & t & -> & [-> | ->]);
    repeat constructor; discriminate.
Qed.

Lemma unlocked_deliver (env : Env) (s : Shared) :
  Forall (fun e => e <> Lock /\ e <> Unlock) (trace (deliver env s)).
Proof.
  destruct (String.eqb_spec (message s) "") as [H|H].
  - rewrite (deliver_empty env s H). constructor.
  - destruct (deliver_nonempty env s H) as [line ->]. cbn [trace snd].
    destruct (ParseURL env _); repeat constructor; discriminate.
Qed.

Lemma unlocked_logs (err1 err2 : option error) :
  Forall (fun e => e <> Lock /\ e <> Unlock) (decode_log err1)
  /\ Forall (fun e => e <> Lock /\ e <> Unlock) (log_error err2).
Proof. destruct err1, err2; repeat constructor; discriminate. Qed.

(** X14.  The mutex is taken only at the very end: a callback that
    returns ends with [Lock; Unlock] and holds the lock at no earlier
    point, so every read and write of the captured variables and every
    network call happen outside it; a callback that panics never takes
    it. *)
Theorem callback_locks_last (env : Env) (msg : Message) (s : Shared) :
  match outcome (callback env msg s) with
  | Returned _ =>
      exists t, trace (callback env msg s) = (t ++ [Lock; Unlock])%list
                /\ Forall (fun e => e <> Lock /\ e <> Unlock) t
  | Panicked _ =>
      Forall (fun e => e <> Lock /\ e <> Unlock) (trace (callback env msg s))
  end.
Proof.
  rewrite callback_pieces. cbv zeta.
  set (d := CloudBuildInfo.Unmarshal (Data msg) CloudBuildInfo.zero).
  set (s1 := final (locate (CloudBuildInfo.Steps (fst d)) s)).
  pose proof (unlocked_GetGithubInfo env
                (Substitutions.COMMITSHA (CloudBuildInfo.Substitutions (fst d)))
                (Substitutions.REPONAME (CloudBuildInfo.Substitutions (fst d))) s1) as Hg.
  destruct (outcome (GetGithubInfo _ _ _ _)) as [r|reason]; cbn [outcome trace fst snd].
  - destruct (unlocked_logs (snd d) (snd r)) as [Hd Hl].
    pose proof (unlocked_format (fst d) (fst r) s1) as Hf.
    pose proof (unlocked_deliver env (final (format (fst d) (fst r) s1))) as Hdl.
    set (tg := trace (GetGithubInfo env _ _ s1)) in *.
    set (tf := trace (format (fst d) (fst r) s1)) in *.
    set (tdl := trace (deliver env (final (format (fst d) (fst r) s1)))) in *.
    exists (Ack :: decode_log (snd d) ++ tg ++ log_error (snd r) ++ tf ++ tdl)%list.
    split.
    + cbn [app]. f_equal. rewrite <- !app_assoc. reflexivity.
    + constructor; [split; discriminate|].
      apply Forall_app; split; [exact Hd|].
      apply Forall_app; split; [exact Hg|].
      apply Forall_app; split; [exact Hl|].
      apply Forall_app; split; [exact Hf | exact Hdl].
  - destruct (unlocked_logs (snd d) None) as [Hd _].
    constructor; [split; discriminate|].
    apply Forall_app; split; assumption.
Qed.

(** ** The receive loop and pullMsgs (lines 41-108) *)

Lemma Receive_cons (env : Env) (msg : Message) (rest : list (Env * Message))
  (stop : option error) (s : Shared) :
  Receive ((env, msg) :: rest) stop s =
  match outcome (callback env msg s) with
  | Returned _ =>
      let r := Receive rest stop (final (callback env msg s)) in
      (outcome r, final r, (trace (callback env msg s) ++ trace r)%list)
  | Panicked reason =>
      (Panicked reason, final (callback env msg s), trace (callback env msg s))
  end.
Proof.
  cbn [Receive]. unfold bind.
  destruct (callback env msg s) as [[[[]|reason] s1] t1]; cbn [outcome final trace fst snd];
    [|reflexivity].
  destruct (Receive rest stop s1) as [[r s2] t2]. reflexivity.
Qed.

Lemma acks_app (t1 t2 : list effect) : acks (t1 ++ t2)%list = (acks t1 + acks t2)%nat.
Proof. unfold acks. now rewrite filter_app, length_app. Qed.

Lemma acks_none (t : list effect) : Forall (fun e => e <> Ack) t -> acks t = 0%nat.
Proof.
  induction 1 as [|e t He _ IH]; [reflexivity|].
  unfold acks in *. cbn [filter]. destruct e; try exact IH. contradiction.
Qed.

Lemma callback_acks (env : Env) (msg : Message) (s : Shared) :
  acks (trace (callback env msg s)) = 1%nat.
Proof.
  rewrite callback_run. cbn [trace snd].
  change (Ack :: ?t)%list with ([Ack] ++ t)%list.
  rewrite !acks_app.
  rewrite (acks_none (trace (process _ _ _))) by apply process_never_acks.
  rewrite (acks_none (decode_log _)); [reflexivity|].
  destruct (snd _); repeat constructor. discriminate.
Qed.

(** X16.  The loop acknowledges once per callback it starts and never
    more often than there are deliveries; when [Receive] returns, every
    delivered message has been acknowledged exactly once, whatever
    decoding, enrichment and delivery did with it. *)
Theorem every_delivery_acknowledged
  (deliveries : list (Env * Message)) (stop : option error) (s : Shared) :
  (acks (trace (Receive deliveries stop s)) <= length deliveries)%nat
  /\ (forall e, outcome (Receive deliveries stop s) = Returned e ->
                acks (trace (Receive deliveries stop s)) = length deliveries).
Proof.
  revert s. induction deliveries as [|[env msg] rest IH]; intros s.
  - split; [cbv; lia | reflexivity].
  - rewrite Receive_cons. pose proof (callback_acks env msg s) as Hone.
    destruct (outcome (callback env msg s)) as [[]|reason].
    + destruct (IH (final (callback env msg s))) as [Hle Heq].
      cbn [outcome final trace fst snd length]. rewrite acks_app, Hone.
      split; [lia|]. intros e He. rewrite (Heq e He). reflexivity.
    + cbn [outcome final trace fst snd length]. rewrite Hone.
      split; [lia | discriminate].
Qed.

Lemma every_delivery_acknowledged_witness :
  let deliveries :=
    [(answering_env 500, event "FAILURE" [step "a" "FAILURE"] "superset" "dev" "");
     (answering_env 200, {| Data := Malformed "unexpected end of JSON input" |});
     (answering_env 200, event "SUCCESS" [] "docs" "feature" "")] in
  acks (trace (pullMsgs deliveries None)) = 3%nat.
Proof.
  intros deliveries.
  apply (proj2 (every_delivery_acknowledged deliveries None initial) None).
  reflexivity.
Defined.

Lemma Receive_returns_stop
  (deliveries : list (Env * Message)) (stop : option error) (s : Shared) e :
  outcome (Receive deliveries stop s) = Returned e -> e = stop.
Proof.
  revert s. induction deliveries as [|[env msg] rest IH]; intros s.
  - cbn. intros H. now injection H.
  - rewrite Receive_cons.
    destruct (outcome (callback env msg s)) as [[]|reason];
      cbn [outcome fst]; [apply IH | discriminate].
Qed.

(** The one way a callback fails to return: its commit request is built
    and gets no response. *)
Lemma callback_returns_iff (env : Env) (msg : Message) (s : Shared) :
  let c := fst (CloudBuildInfo.Unmarshal (Data msg) CloudBuildInfo.zero) in
  let req := github_request env
               (Substitutions.COMMITSHA (CloudBuildInfo.Substitutions c))
               (Substitutions.REPONAME (CloudBuildInfo.Substitutions c)) in
  outcome (callback env msg s) = Returned tt
  <-> ~ (ParseURL env (Request.URL req) = None /\ exists e, Do env req = DoError e).
Proof.
  intros c req. rewrite callback_pieces. fold c.
  set (s1 := final (locate (CloudBuildInfo.Steps c) s)).
  destruct (ParseURL env (Request.URL req)) as [e|] eqn:Hurl.
  - unfold req in Hurl. rewrite (GetGithubInfo_unparsable _ _ _ _ _ Hurl).
    cbn [outcome fst]. split; [intros _ [H _]; discriminate | reflexivity].
  - unfold req in Hurl. rewrite (GetGithubInfo_sent _ _ _ _ Hurl).
    fold req. cbn [outcome fst].
    destruct (Do env req) as [res|e|res e]; cbn [res_of Response.Body].
    + split; [intros _ (_ & e & H); discriminate|]. intros _.
      destruct (Response.Body res) as [e|data]; [reflexivity|].
      destruct (snd _); reflexivity.
    + split; [discriminate|]. intros H. exfalso. apply H. split; [reflexivity|].
      exists e. reflexivity.
    + split; [intros _ (_ & e' & H); discriminate | reflexivity].
Qed.

(** X17.  [pullMsgs] returns, and then with exactly the error [Receive]
    ends with, if and only if no delivered message has its commit request
    built and left without a response.  No payload that fails to decode,
    no enrichment error and no failed delivery keeps it from returning
    or changes what it returns. *)
Theorem pullMsgs_returns_exactly_when
  (deliveries : list (Env * Message)) (stop : option error) :
  outcome (pullMsgs deliveries stop) = Returned stop
  <-> forall env msg,
        In (env, msg) deliveries ->
        let c := fst (CloudBuildInfo.Unmarshal (Data msg) CloudBuildInfo.zero) in
        let req := github_request env
                     (Substitutions.COMMITSHA (CloudBuildInfo.Substitutions c))
                     (Substitutions.REPONAME (CloudBuildInfo.Substitutions c)) in
        ~ (ParseURL env (Request.URL req) = None /\ exists e, Do env req = DoError e).
Proof.
  unfold pullMsgs. generalize initial.
  induction deliveries as [|[env msg] rest IH]; intros s.
  - split; [intros _ env msg [] | reflexivity].
  - rewrite Receive_cons. pose proof (callback_returns_iff env msg s) as Hcb.
    cbv zeta in Hcb. split.
    + intros Hret env' msg' [Heq | Hin].
      * injection Heq as <- <-. apply Hcb.
        destruct (outcome (callback env msg s)) as [[]|reason];
          [reflexivity | discriminate].
      * destruct (outcome (callback env msg s)) as [[]|reason];
          [|discriminate].
        cbn [outcome fst] in Hret. exact (proj1 (IH _) Hret env' msg' Hin).
    + intros Hall.
      rewrite (proj2 Hcb (Hall env msg (or_introl eq_refl))).
      cbn [outcome fst]. apply IH. intros env' msg' Hin.
      apply Hall. now right.
Qed.

(** ** init and main (lines 20-39) *)

Lemma pullMsgs_acks (deliveries : list (Env * Message)) (stop e : option error) :
  outcome (pullMsgs deliveries stop) = Returned e ->
  acks (trace (pullMsgs deliveries stop)) = length deliveries.
Proof.
  unfold pullMsgs. revert e. generalize initial.
  induction deliveries as [|[env msg] rest IH]; intros s e; [reflexivity|].
  rewrite Receive_cons. pose proof (callback_acks env msg s) as Hone.
  destruct (outcome (callback env msg s)) as [[]|reason];
    cbn [outcome final trace fst snd length]; [|discriminate].
  intros H. rewrite acks_app, Hone, (IH _ _ H). reflexivity.
Qed.

(** X20.  The process as a whole.  If the [.env] file cannot be loaded
    or the client cannot be created, it exits with status 1 after one
    log line, having received, acknowledged and requested nothing.
    Once started, it exits with status 1 exactly when [Receive] ends
    with an error and returns when [Receive] ends without one, in both
    cases with every delivered message acknowledged; it crashes exactly
    when a callback panics. *)
Theorem run_ends
  (st : Startup) (deliveries : list (Env * Message)) (stop : option error) :
  (Load st <> None \/ NewClient st (environ st "PROJECT_ID") <> None ->
   exists line, run st deliveries stop = (Exit 1, [Log line]))
  /\ (Load st = None -> NewClient st (environ st "PROJECT_ID") = None ->
      match outcome (pullMsgs deliveries stop) with
      | Returned _ =>
          fst (run st deliveries stop)
          = match stop with Some _ => Exit 1 | None => Done end
          /\ acks (snd (run st deliveries stop)) = length deliveries
      | Panicked reason => fst (run st deliveries stop) = Crash reason
      end).
Proof.
  split.
  - intros H. unfold run, main.
    destruct (Load st) as [e|]; [eexists; reflexivity|].
    destruct (NewClient st _) as [e|]; [eexists; reflexivity|].
    destruct H as [H | H]; contradiction.
  - intros Hload Hclient. unfold run, main. rewrite Hload, Hclient.
    pose proof (Receive_returns_stop deliveries stop initial) as Hstop.
    pose proof (pullMsgs_acks deliveries stop) as Hacks.
    unfold pullMsgs in *.
    destruct (Receive deliveries stop initial) as [[[e|reason] s] t];
      cbn [outcome trace fst snd] in *; [|reflexivity].
    rewrite (Hstop e eq_refl) in *. specialize (Hacks stop eq_refl).
    destruct stop as [e'|]; cbn [fst snd]; (split; [reflexivity|]).
    + change (Log ?x :: ?l)%list with ([Log x] ++ l)%list.
      rewrite !acks_app, Hacks. cbn. lia.
    + change (Log ?x :: ?l)%list with ([Log x] ++ l)%list.
      rewrite acks_app, Hacks. reflexivity.
Qed.

Lemma run_ends_witness :
  let st := {| Load := None; environ := sample_getenv; NewClient := fun _ => None |} in
  let broken := {| Load := Some "open .env: no such file or directory";
                   environ := sample_getenv; NewClient := fun _ => None |} in
  let deliveries :=
    [(answering_env 200, event "FAILURE" [step "a" "FAILURE"] "superset" "dev" "")] in
  (exists line, run broken deliveries None = (Exit 1, [Log line]))
  /\ fst (run st deliveries (Some "subscription closed")) = Exit 1
  /\ acks (snd (run st deliveries (Some "subscription closed"))) = 1%nat.
Proof.
  intros st broken deliveries. split.
  - apply (proj1 (run_ends broken deliveries None)). left. discriminate.
  - apply (proj2 (run_ends st deliveries (Some "subscription closed")) eq_refl eq_refl).
Defined.
